(** * workshop-tbdex-wallet: offering matching and exchange projection

    A shallow embedding of the decision logic of [src/api-utils.ts]:
    - [isMatchingOffering] (lines 66-83), the credential/offering matcher;
    - [generateExchangeStatusValues] (lines 121-134) and [renderOrderStatus]
      (lines 136-157), the status derivation and its display label;
    - the callback of [exchanges.map] in [fetchExchanges] (lines 93-114),
      called [mappedExchange] here, which flattens one exchange into a
      [ClientExchange] record.

    JavaScript values are modelled by [JsVal]; a computation that may throw
    returns a [result].  Numbers are kept abstract behind the interface
    [JsNumber], because the code only converts, adds and prints them. *)

From Stdlib Require Import ZArith String Ascii DecimalString.
From stdpp Require Import base option list gmap strings fin_maps fin_sets.

Local Open Scope string_scope.
Set Warnings "-register-all".

(** ** Outcomes of an evaluation *)

Inductive Exn : Type :=
| TypeError
    (* reading a property of undefined or null *)
| External (what : string)
    (* raised by a collaborator: Jwt.parse, TbdexHttpClient *)
| ErrorMsg (prefix : string) (cause : Exn).
    (* new Error(`${prefix}${cause}`) *)

Inductive result (A : Type) : Type :=
| Ok (a : A)
| Throw (e : Exn).

Arguments Ok {A} a.
Arguments Throw {A} e.

#[global] Instance result_ret : MRet result := λ A a, Ok a.

#[global] Instance result_bind : MBind result :=
  λ A B f r, match r with Ok a => f a | Throw e => Throw e end.

(** [x] where the code goes on to read a property of [x]: an undefined [x]
    raises a TypeError. *)
Definition defined {A : Type} (x : option A) : result A :=
  match x with
  | Some a => Ok a
  | None => Throw TypeError
  end.

(** [for (const x of xs) { s = body(s, x) }] with the loop variable [s]
    threaded through the iterations. *)
Fixpoint for_of {A S : Type} (body : S → A → result S) (s : S) (xs : list A)
  : result S :=
  match xs with
  | [] => Ok s
  | x :: xs' => s' ← body s x; for_of body s' xs'
  end.

(** [xs.map(f)] for a callback that may throw: elements are visited from
    left to right and the first exception escapes. *)
Fixpoint Array_map {A B : Type} (f : A → result B) (xs : list A)
  : result (list B) :=
  match xs with
  | [] => Ok []
  | x :: xs' => y ← f x; ys ← Array_map f xs'; Ok (y :: ys)
  end.

(** ** Strings *)

(** [Array.prototype.includes] on an array of strings. *)
Definition Array_includes (xs : list string) (x : string) : bool :=
  bool_decide (x ∈ xs).

(** [String.prototype.includes]: [sub] occurs in [s] as a substring. *)
Fixpoint includes (s sub : string) : bool :=
  String.prefix sub s ||
  match s with
  | EmptyString => false
  | String _ s' => includes s' sub
  end.

(** [sub] occurs in [s], as a relation: [s] is some text, then [sub], then
    some text. *)
Definition Contains (s sub : string) : Prop :=
  ∃ pre post, s = pre +:+ sub +:+ post.

Definition lower_ascii (c : ascii) : ascii :=
  let n := nat_of_ascii c in
  if (65 <=? n)%nat && (n <=? 90)%nat then ascii_of_nat (n + 32) else c.

(** [String.prototype.toLowerCase] on the ASCII letters; other bytes are
    left as they are. *)
Fixpoint toLowerCase (s : string) : string :=
  match s with
  | EmptyString => EmptyString
  | String c s' => String (lower_ascii c) (toLowerCase s')
  end.

(** ** Numbers and values *)

(** The operations of JavaScript numbers that the code relies on.  The one
    law is that printing a number never gives the empty string. *)
Class JsNumber (num : Type) : Type := {
  num_NaN : num;
  num_of_Z : Z → num;
  num_of_string : string → num;
  num_add : num → num → num;
  num_eqb : num → num → bool;
  num_to_string : num → string;
  num_to_string_nonempty : ∀ n, num_to_string n ≠ "";
}.

Section Wallet.
Context {num : Type} `{!JsNumber num}.

(** The values found in credentials and message payloads: JSON primitives
    and plain objects. *)
Inductive JsVal : Type :=
| JUndefined
| JNull
| JBool (b : bool)
| JNum (n : num)
| JStr (s : string)
| JObj (props : list (string * JsVal)).

(** [o[k]] on the properties of an object: [undefined] when absent. *)
Fixpoint get (props : list (string * JsVal)) (k : string) : JsVal :=
  match props with
  | [] => JUndefined
  | (k', v) :: rest => if String.eqb k' k then v else get rest k
  end.

Definition nullish (v : JsVal) : bool :=
  match v with
  | JUndefined | JNull => true
  | _ => false
  end.

(** [v.k]: a TypeError on undefined and null; primitives carry none of the
    keys read by this code. *)
Definition prop (v : JsVal) (k : string) : result JsVal :=
  match v with
  | JUndefined | JNull => Throw TypeError
  | JObj props => Ok (get props k)
  | _ => Ok JUndefined
  end.

(** [v?.k] *)
Definition optprop (v : JsVal) (k : string) : JsVal :=
  match v with
  | JObj props => get props k
  | _ => JUndefined
  end.

(** Falsy numbers are 0, -0 and NaN (the only number not equal to itself). *)
Definition num_falsy (n : num) : bool :=
  num_eqb n (num_of_Z 0) || negb (num_eqb n n).

Definition truthy (v : JsVal) : bool :=
  match v with
  | JUndefined | JNull => false
  | JBool b => b
  | JNum n => negb (num_falsy n)
  | JStr s => negb (String.eqb s "")
  | JObj _ => true
  end.

(** [a || b] and [a ?? b] *)
Definition js_or (a b : JsVal) : JsVal := if truthy a then a else b.

Definition js_nullish (a b : JsVal) : JsVal := if nullish a then b else a.

(** ToString; a plain object prints as [[object Object]]. *)
Definition ToString (v : JsVal) : string :=
  match v with
  | JUndefined => "undefined"
  | JNull => "null"
  | JBool true => "true"
  | JBool false => "false"
  | JNum n => num_to_string n
  | JStr s => s
  | JObj _ => "[object Object]"
  end.

(** [Number(v)] *)
Definition Number (v : JsVal) : num :=
  match v with
  | JUndefined => num_NaN
  | JNull => num_of_Z 0
  | JBool true => num_of_Z 1
  | JBool false => num_of_Z 0
  | JNum n => n
  | JStr s => num_of_string s
  | JObj _ => num_of_string "[object Object]"
  end.

Definition is_stringy (v : JsVal) : bool :=
  match v with
  | JStr _ | JObj _ => true
  | _ => false
  end.

(** [a + b]: concatenation as soon as one operand is (or converts to) a
    string, addition of numbers otherwise. *)
Definition js_add (a b : JsVal) : JsVal :=
  if is_stringy a || is_stringy b
  then JStr (ToString a +:+ ToString b)
  else JNum (num_add (Number a) (Number b)).

(** [a == b], the loose equality of the language.  Two objects are equal
    only when they are the same object, which values read from two
    different documents never are. *)
Definition looseEq (a b : JsVal) : bool :=
  match a, b with
  | (JUndefined | JNull), (JUndefined | JNull) => true
  | (JUndefined | JNull), _ | _, (JUndefined | JNull) => false
  | JStr x, JStr y => String.eqb x y
  | JStr x, JObj _ => String.eqb x "[object Object]"
  | JObj _, JStr y => String.eqb "[object Object]" y
  | JObj _, JObj _ => false
  | JBool x, JBool y => Bool.eqb x y
  | _, _ => num_eqb (Number a) (Number b)
  end.

(** ** The offering matcher *)

(** Modelled from the spec: the [Offering] type of @tbdex/http-client and
    the presentation definition it carries are not in src.  Section 3 of the
    spec gives an offering a fixed-order list of constraints, each with a
    path and a required value; the code reads them at
    [offering.data.requiredClaims.input_descriptors[0].constraints.fields],
    with the paths at [field.path] and the value at [field.filter.const].
    A field without that value, on which lines 75 and 78 would fault, is
    outside this type. *)
Inductive FilterConst : Type :=
| ConstStr (s : string)
| ConstNum (n : num)
| ConstBool (b : bool).

Record Filter : Type := { filter_const : FilterConst }.

Record Field : Type := { field_path : list string; field_filter : Filter }.

Record Constraints : Type := { constraints_fields : list Field }.

Record InputDescriptor : Type := { descriptor_constraints : Constraints }.

Record PresentationDefinition : Type :=
  { claims_input_descriptors : list InputDescriptor }.

Record OfferingData : Type := { data_requiredClaims : PresentationDefinition }.

Record Offering : Type := { offering_data : OfferingData }.

(** [Partial<VcDataModel>] (line 67): every member may be missing.  The
    subject is a JavaScript object, a finite map from claim names to values;
    the issuer is a string or an object. *)
Record VcDataModel : Type := {
  vc_credentialSubject : option (gmap string JsVal);
  vc_issuer : JsVal;
  vc_type : option (list string);
}.

Definition const_value (c : FilterConst) : JsVal :=
  match c with
  | ConstStr s => JStr s
  | ConstNum n => JNum n
  | ConstBool b => JBool b
  end.

(** [field.filter.const.toString()] *)
Definition const_toString (c : FilterConst) : string := ToString (const_value c).

(** [for (const key in o) { s = body(key, s) }]; nothing is enumerated when
    [o] is undefined. *)
Definition for_in {S : Type} (o : option (gmap string JsVal))
    (body : string → S → S) (s : S) : S :=
  match o with
  | None => s
  | Some m => map_fold (λ key _ acc, body key acc) s m
  end.

(** The body of the loop over the fields (lines 70-80), as a function of
    the counter [matches]. *)
Definition field_body (vc : VcDataModel) (matches : nat) (field : Field) : nat :=
  let matches :=
    for_in (vc_credentialSubject vc)
      (λ key matches,
         if Array_includes (field_path field) ("$.credentialSubject." +:+ key)
         then S matches else matches)
      matches in
  let matches :=
    if Array_includes (field_path field) "$.issuer"
       && truthy (vc_issuer vc)
       && looseEq (const_value (filter_const (field_filter field))) (vc_issuer vc)
    then S matches else matches in
  let matches :=
    if Array_includes (field_path field) "$.type[*]"
       && match vc_type vc with
          | Some types =>
              Array_includes types (const_toString (filter_const (field_filter field)))
          | None => false
          end
    then S matches else matches in
  matches.

Section Matcher.

(** [Jwt.parse({ jwt }).decoded.payload['vc']] for the token [jwt], which is
    undefined ([None]) when the list of credentials is empty.  The decoder
    belongs to @web5/credentials: it throws on a token it cannot parse, and
    gives [None] when the payload holds no [vc]. *)
Variable Jwt_parse_vc : option string → result (option VcDataModel).

Definition isMatchingOffering (offering : Offering) (credentials : list string)
  : result bool :=
  vc ← Jwt_parse_vc (head credentials);
  descriptor ←
    defined (head (claims_input_descriptors
                     (data_requiredClaims (offering_data offering))));
  let fields := constraints_fields (descriptor_constraints descriptor) in
  matches ←
    for_of (λ matches field, vc ← defined vc; Ok (field_body vc matches field))
      0%nat fields;
  Ok (matches =? length fields)%nat.

End Matcher.

(** *** The count as the specification words it

    Section 4.1: per constraint, one for every claim key of the credential
    whose [credentialSubject] path the constraint references, one when the
    constraint addresses [$.issuer] and its required value equals the
    issuer the credential has, one when it addresses [$.type[*]] and the
    type list of the credential contains its required value. *)

Definition spec_claim_key_hits (vc : VcDataModel) (c : Field) : nat :=
  match vc_credentialSubject vc with
  | None => 0
  | Some subject =>
      size (filter (λ key, "$.credentialSubject." +:+ key ∈ field_path c)
                   (dom subject))
  end.

Definition spec_issuer_satisfied (vc : VcDataModel) (c : Field) : bool :=
  bool_decide ("$.issuer" ∈ field_path c)
  && truthy (vc_issuer vc)
  && looseEq (const_value (filter_const (field_filter c))) (vc_issuer vc).

Definition spec_type_satisfied (vc : VcDataModel) (c : Field) : bool :=
  bool_decide ("$.type[*]" ∈ field_path c)
  && match vc_type vc with
     | Some types => bool_decide (const_toString (filter_const (field_filter c)) ∈ types)
     | None => false
     end.

Definition spec_constraint_count (vc : VcDataModel) (c : Field) : nat :=
  spec_claim_key_hits vc c
  + (if spec_issuer_satisfied vc c then 1 else 0)
  + (if spec_type_satisfied vc c then 1 else 0).

Definition spec_match_count (vc : VcDataModel) (cs : list Field) : nat :=
  sum_list (spec_constraint_count vc <$> cs).

(** ** Exchanges *)

(** Modelled from the spec: the message classes of @tbdex/http-client are
    not in src.  Section 3 of the spec gives a message a kind tag, a
    kind-specific data payload, optional private data, metadata (exchange
    id, sender, recipient) and a creation time; section 4.2 gives a close
    message a free-text reason.  An instance of [Close] is [CloseData]; any
    other message carries its own kind tag and a JSON payload.  A close
    message without a reason, on which line 123 faults, is outside this
    type; [generateExchangeStatusValues_untyped] covers it. *)
Inductive MessageData : Type :=
| CloseData (reason : string)
| KindData (kind : string) (payload : list (string * JsVal)).

Record Metadata : Type := {
  metadata_exchangeId : string;
  metadata_from : string;
  metadata_to : string;
}.

Record Message : Type := {
  message_body : MessageData;
  message_privateData : option (list (string * JsVal));
  message_metadata : Metadata;
  message_createdAt : string;
}.

(** [message.kind] *)
Definition message_kind (message : Message) : string :=
  match message_body message with
  | CloseData _ => "close"
  | KindData kind _ => kind
  end.

(** [message.data[k]] *)
Definition message_data (message : Message) (k : string) : JsVal :=
  match message_body message with
  | CloseData reason => get [("reason", JStr reason)] k
  | KindData _ payload => get payload k
  end.

(** Lines 121-134. *)
Definition generateExchangeStatusValues (exchangeMessage : Message) : string :=
  match message_body exchangeMessage with
  | CloseData reason =>
      if includes (toLowerCase reason) "complete"
         || includes (toLowerCase reason) "success"
      then "completed"
      else if includes (toLowerCase reason) "expired" then "expired"
      else if includes (toLowerCase reason) "cancelled" then "cancelled"
      else "failed"
  | KindData kind _ => kind
  end.

(** Lines 136-157: the switch compares [status] with each label in turn. *)
Definition renderOrderStatus (exchange : Message) : string :=
  let status := generateExchangeStatusValues exchange in
  if String.eqb status "rfq" then "Requested"
  else if String.eqb status "quote" then "Quoted"
  else if String.eqb status "order" || String.eqb status "orderstatus" then "Pending"
  else if String.eqb status "completed" then "Completed"
  else if String.eqb status "expired" then "Expired"
  else if String.eqb status "cancelled" then "Cancelled"
  else if String.eqb status "failed" then "Failed"
  else "Unknown status".

(** The record built at lines 101-113.  [expirationTime] is [None] when the
    spread at line 109 adds no such key. *)
Record ClientExchange : Type := {
  ce_id : string;
  ce_payinAmount : JsVal;
  ce_payinCurrency : JsVal;
  ce_payoutAmount : JsVal;
  ce_payoutCurrency : JsVal;
  ce_status : string;
  ce_createdTime : string;
  ce_expirationTime : option JsVal;
  ce_from : string;
  ce_to : JsVal;
  ce_pfiDid : string;
}.

(** [exchange.find(message => message.kind === kind)] *)
Definition find_kind (kind : string) (exchange : list Message) : option Message :=
  find (λ message, String.eqb (message_kind message) kind) exchange.

(** [quoteMessage?.data[k]] *)
Definition opt_data (message : option Message) (k : string) : JsVal :=
  match message with
  | Some m => message_data m k
  | None => JUndefined
  end.

(** Line 100, [rfqMessage.privateData?.payout.paymentDetails]: undefined
    without private data, a TypeError when the private data has no payout. *)
Definition private_payout_details (rfqMessage : Message) : result JsVal :=
  match message_privateData rfqMessage with
  | None => Ok JUndefined
  | Some privateData => prop (get privateData "payout") "paymentDetails"
  end.

(** Line 103, the value of the key [payinAmount]. *)
Definition payinAmount_value (fee payinAmount : JsVal) (rfqMessage : Message)
  : JsVal :=
  js_or
    (JStr (num_to_string
             (if truthy fee
              then num_add (Number payinAmount) (Number fee)
              else Number payinAmount)))
    (message_data rfqMessage "payinAmount").

(** Line 111, the value of the key [to]. *)
Definition to_value (payoutPaymentDetails : JsVal) : JsVal :=
  js_or
    (js_or (optprop payoutPaymentDetails "address")
           (js_add (js_add (optprop payoutPaymentDetails "accountNumber")
                           (JStr ", "))
                   (optprop payoutPaymentDetails "bankName")))
    (JStr "Unknown").

(** Lines 93-114, the callback mapped over the fetched exchanges.  An empty
    exchange leaves [latestMessage] undefined, and the call at line 97 then
    faults on reading its kind. *)
Definition mappedExchange (exchange : list Message) : result ClientExchange :=
  let latestMessage := last exchange in
  let rfqMessage := find_kind "rfq" exchange in
  let quoteMessage := find_kind "quote" exchange in
  latest ← defined latestMessage;
  let status := generateExchangeStatusValues latest in
  let fee := optprop (opt_data quoteMessage "payin") "fee" in
  let payinAmount := optprop (opt_data quoteMessage "payin") "amount" in
  rfq ← defined rfqMessage;
  payoutPaymentDetails ← private_payout_details rfq;
  let id := metadata_exchangeId (message_metadata latest) in
  let payinAmount := payinAmount_value fee payinAmount rfq in
  quote ← defined quoteMessage;
  let payinCurrency :=
    js_nullish (optprop (message_data quote "payin") "currencyCode") JNull in
  let payoutAmount :=
    js_nullish (optprop (opt_data quoteMessage "payout") "amount") JNull in
  let payoutCurrency := optprop (message_data quote "payout") "currencyCode" in
  let expirationTime :=
    if String.eqb (message_kind latest) "quote"
    then Some (js_nullish (message_data quote "expiresAt") JNull)
    else None in
  Ok {| ce_id := id;
        ce_payinAmount := payinAmount;
        ce_payinCurrency := payinCurrency;
        ce_payoutAmount := payoutAmount;
        ce_payoutCurrency := payoutCurrency;
        ce_status := status;
        ce_createdTime := message_createdAt rfq;
        ce_expirationTime := expirationTime;
        ce_from := "You";
        ce_to := to_value payoutPaymentDetails;
        ce_pfiDid := metadata_to (message_metadata rfq) |}.

(** Lines 86-119, given the outcome of [TbdexHttpClient.getExchanges]: any
    exception of the call or of the mapping is caught and thrown again
    under a fixed prefix. *)
Definition fetchExchanges (getExchanges : result (list (list Message)))
  : result (list ClientExchange) :=
  match exchanges ← getExchanges; Array_map mappedExchange exchanges with
  | Ok mappedExchanges => Ok mappedExchanges
  | Throw e => Throw (ErrorMsg "Error fetching exchanges: " e)
  end.

(** The record that the callback returns once its four reads succeed. *)
Definition summary_record (latest rfq quote : Message) (details : JsVal)
  : ClientExchange :=
  {| ce_id := metadata_exchangeId (message_metadata latest);
     ce_payinAmount :=
       payinAmount_value (optprop (message_data quote "payin") "fee")
         (optprop (message_data quote "payin") "amount") rfq;
     ce_payinCurrency :=
       js_nullish (optprop (message_data quote "payin") "currencyCode") JNull;
     ce_payoutAmount :=
       js_nullish (optprop (message_data quote "payout") "amount") JNull;
     ce_payoutCurrency := optprop (message_data quote "payout") "currencyCode";
     ce_status := generateExchangeStatusValues latest;
     ce_createdTime := message_createdAt rfq;
     ce_expirationTime :=
       if String.eqb (message_kind latest) "quote"
       then Some (js_nullish (message_data quote "expiresAt") JNull)
       else None;
     ce_from := "You";
     ce_to := to_value details;
     ce_pfiDid := metadata_to (message_metadata rfq) |}.

(** A message with a given kind tag, for the statements that need one. *)
Definition plain_message (kind : string) : Message :=
  {| message_body := KindData kind [];
     message_privateData := None;
     message_metadata :=
       {| metadata_exchangeId := ""; metadata_from := ""; metadata_to := "" |};
     message_createdAt := "" |}.

(** The preconditions of the projection: the exchange has a last message,
    an rfq and a quote, and the private data of the rfq, when present, has
    a payout. *)
Definition projectable (exchange : list Message) : bool :=
  match last exchange, find_kind "rfq" exchange, find_kind "quote" exchange with
  | Some _, Some rfq, Some _ =>
      match private_payout_details rfq with
      | Ok _ => true
      | Throw _ => false
      end
  | _, _, _ => false
  end.

End Wallet.

Arguments JsVal num : clear implicits.
Arguments MessageData num : clear implicits.
Arguments Message num : clear implicits.
Arguments ClientExchange num : clear implicits.
Arguments FilterConst num : clear implicits.
Arguments Field num : clear implicits.
Arguments Offering num : clear implicits.
Arguments VcDataModel num : clear implicits.

(** ** Credentials: request and display *)

(** The character classes of the pattern at line 46. *)
Definition is_upper (c : ascii) : bool :=
  let n := nat_of_ascii c in (65 <=? n)%nat && (n <=? 90)%nat.

Definition is_lower (c : ascii) : bool :=
  let n := nat_of_ascii c in (97 <=? n)%nat && (n <=? 122)%nat.

(** The lookahead of the pattern: the next character is in [a-z]. *)
Definition next_is_lower (s : string) : bool :=
  match s with
  | String c _ => is_lower c
  | EmptyString => false
  end.

(** The pattern [(?<!^)(?<![A-Z])[A-Z](?=[a-z])] at the character [c], with
    [before] the character to its left ([None] at the start of the text)
    and [rest] the text to its right. *)
Definition capital_matches (before : option ascii) (c : ascii) (rest : string)
  : bool :=
  match before with
  | None => false
  | Some b => negb (is_upper b)
  end
  && is_upper c && next_is_lower rest.

(** Line 46, [text.replace(/(?<!^)(?<![A-Z])[A-Z](?=[a-z])/g, ' $&')]: a
    space goes in front of every match; the lookbehind reads the text as it
    was, not the text built so far. *)
Fixpoint replace_capitals (before : option ascii) (text : string) : string :=
  match text with
  | EmptyString => EmptyString
  | String c rest =>
      if capital_matches before c rest
      then String " " (String c (replace_capitals (Some c) rest))
      else String c (replace_capitals (Some c) rest)
  end.

(** The number of matches of the pattern in a text. *)
Fixpoint count_capitals (before : option ascii) (text : string) : nat :=
  match text with
  | EmptyString => 0
  | String c rest =>
      (if capital_matches before c rest then 1 else 0)
      + count_capitals (Some c) rest
  end.

(** A text without its spaces. *)
Fixpoint remove_spaces (text : string) : string :=
  match text with
  | EmptyString => EmptyString
  | String c rest =>
      if Ascii.eqb c " " then remove_spaces rest
      else String c (remove_spaces rest)
  end.

Section Credentials.
Context {num : Type} `{!JsNumber num}.

(** Line 25, the address asked of the issuer: a template literal, which
    prints each value as it is. *)
Definition credential_url (subjectDid : string) (data : list (string * JsVal num))
  : string :=
  "http://localhost:9000/vc?name=" +:+ ToString (get data "customerName")
  +:+ "&country=" +:+ ToString (get data "country")
  +:+ "&did=" +:+ subjectDid.

(** [fetch(url).then((r) => r.text())], the answer of the network. *)
Variable fetch_text : string → result string.

(** Lines 21-28. *)
Definition getCredentialFromIssuer (subjectDid : string)
    (data : list (string * JsVal num)) : result string :=
  credential ← fetch_text (credential_url subjectDid data);
  Ok credential.

(** Lines 31-40. *)
Definition requestCredentialFromIssuer (didUri : string)
    (customerName country : JsVal num) : result string :=
  credential ←
    getCredentialFromIssuer didUri
      [("customerName", customerName); ("country", country)];
  Ok credential.

(** The object returned at lines 45-50. *)
Record RenderedCredential : Type := {
  rendered_title : string;
  rendered_name : JsVal num;
  rendered_countryCode : JsVal num;
  rendered_issuanceDate : string;
}.

(** The decoder of line 44, as for the matcher. *)
Variable Jwt_parse_vc : option string → result (option (VcDataModel num)).

(** [vc.issuanceDate], a member of the decoded credential that the record
    [VcDataModel] leaves out, and
    [new Date(d).toLocaleDateString(undefined, {dateStyle: 'medium'})],
    which depends on the locale of the machine. *)
Variable vc_issuanceDate : VcDataModel num → JsVal num.
Variable toLocaleDateString_medium : JsVal num → string.

(** [subject[k]] on the claims of a credential. *)
Definition subject_get (subject : gmap string (JsVal num)) (k : string)
  : JsVal num :=
  default JUndefined (subject !! k).

(** Lines 43-51.  The title reads [vc.type[vc.type.length - 1]], which
    faults on a missing credential, a missing type list and an empty one;
    the name reads a member of [vc.credentialSubject], which faults when the
    subject is missing. *)
Definition renderCredential (credentialJwt : string) : result RenderedCredential :=
  vc ← Jwt_parse_vc (Some credentialJwt);
  vc ← defined vc;
  types ← defined (vc_type vc);
  tag ← defined (last types);
  let title := replace_capitals None tag in
  subject ← defined (vc_credentialSubject vc);
  Ok {| rendered_title := title;
        rendered_name := subject_get subject "name";
        rendered_countryCode := subject_get subject "country";
        rendered_issuanceDate :=
          toLocaleDateString_medium (vc_issuanceDate vc) |}.

End Credentials.

Arguments RenderedCredential num : clear implicits.

Section Offerings.
Context {num : Type} `{!JsNumber num}.

(** Lines 54-63, given the outcome of [TbdexHttpClient.getOfferings]. *)
Definition fetchOfferings (getOfferings : result (list (Offering num)))
  : result (list (Offering num)) :=
  match offerings ← getOfferings; Ok offerings with
  | Ok offerings => Ok offerings
  | Throw e => Throw (ErrorMsg "Error fetching offerings: " e)
  end.

End Offerings.

(** ** The status functions on any argument

    The parameter of lines 121 and 136 has no type, so a caller may pass
    anything.  An argument is a value together with what [instanceof Close]
    answers on it.  The functions [generateExchangeStatusValues] and
    [renderOrderStatus] above are these ones on the messages of the data
    model (see [untyped_on_messages] below). *)

Section Untyped.
Context {num : Type} `{!JsNumber num}.

Record Argument : Type := {
  arg_instanceofClose : bool;
  arg_value : JsVal num;
}.

(** [v.toLowerCase()]: only a string has the method. *)
Definition toLowerCase_call (v : JsVal num) : result string :=
  match v with
  | JStr s => Ok (toLowerCase s)
  | _ => Throw TypeError
  end.

(** Lines 121-134 on any argument. *)
Definition generateExchangeStatusValues_untyped (exchangeMessage : Argument)
  : result (JsVal num) :=
  if arg_instanceofClose exchangeMessage then
    data ← prop (arg_value exchangeMessage) "data";
    reason ← prop data "reason";
    lower ← toLowerCase_call reason;
    Ok (JStr (if includes lower "complete" || includes lower "success"
              then "completed"
              else if includes lower "expired" then "expired"
              else if includes lower "cancelled" then "cancelled"
              else "failed"))
  else prop (arg_value exchangeMessage) "kind".

(** The switch of lines 138-156: [status] is compared with [===]. *)
Definition status_label (status : JsVal num) : string :=
  match status with
  | JStr status =>
      if String.eqb status "rfq" then "Requested"
      else if String.eqb status "quote" then "Quoted"
      else if String.eqb status "order" || String.eqb status "orderstatus"
      then "Pending"
      else if String.eqb status "completed" then "Completed"
      else if String.eqb status "expired" then "Expired"
      else if String.eqb status "cancelled" then "Cancelled"
      else if String.eqb status "failed" then "Failed"
      else "Unknown status"
  | _ => "Unknown status"
  end.

(** Lines 136-157 on any argument. *)
Definition renderOrderStatus_untyped (exchange : Argument) : result string :=
  status ← generateExchangeStatusValues_untyped exchange;
  Ok (status_label status).

(** A message of the data model as an argument. *)
Definition argument_of (m : Message num) : Argument :=
  {| arg_instanceofClose :=
       match message_body m with CloseData _ => true | KindData _ _ => false end;
     arg_value :=
       JObj [("kind", JStr (message_kind m));
             ("data",
              JObj match message_body m with
                   | CloseData reason => [("reason", JStr reason)]
                   | KindData _ payload => payload
                   end)] |}.

End Untyped.

Arguments Argument num : clear implicits.

(** ** A model of the numbers

    Integers written in decimal, with [None] for NaN.  It agrees with the
    language on the amounts used in the examples below (an optional minus
    sign and digits), which is all that it is used for. *)

Definition Zn_of_string (s : string) : option Z :=
  if String.eqb s "" then Some 0%Z else Z.of_int <$> NilZero.int_of_string s.

Definition Zn_to_string (n : option Z) : string :=
  match n with
  | Some z => NilZero.string_of_int (Z.to_int z)
  | None => "NaN"
  end.

Definition Zn_add (a b : option Z) : option Z :=
  match a, b with
  | Some x, Some y => Some (x + y)%Z
  | _, _ => None
  end.

Definition Zn_eqb (a b : option Z) : bool :=
  match a, b with
  | Some x, Some y => Z.eqb x y
  | _, _ => false
  end.

#[global, refine] Instance Zn_JsNumber : JsNumber (option Z) := {|
  num_NaN := None;
  num_of_Z := Some;
  num_of_string := Zn_of_string;
  num_add := Zn_add;
  num_eqb := Zn_eqb;
  num_to_string := Zn_to_string;
  num_to_string_nonempty := _;
|}.
Proof.
  intros [z|]; [|discriminate].
  unfold Zn_to_string, NilZero.string_of_int, NilZero.string_of_uint.
  destruct (Z.to_int z) as [d|d]; destruct d; discriminate.
Defined.

(** ** Fixtures *)

Module Fixtures.

Abbreviation val := (JsVal (option Z)).

(** A credential with two claims, and the decoder on the tokens used here. *)
Definition vc_kcc : VcDataModel (option Z) := {|
  vc_credentialSubject :=
    Some {[ "name" := JStr "Alice" : val; "country" := JStr "KE" : val ]};
  vc_issuer := JStr "did:dht:issuer";
  vc_type := Some ["VerifiableCredential"; "KnownCustomerCredential"];
|}.

Definition parse (jwt : option string) : result (option (VcDataModel (option Z))) :=
  match jwt with
  | Some "kcc.jwt" => Ok (Some vc_kcc)
  | Some "empty.jwt" => Ok None
  | _ => Throw (External "malformed token")
  end.

Definition field (path : list string) (c : string) : Field (option Z) :=
  {| field_path := path; field_filter := {| filter_const := ConstStr c |} |}.

Definition offering (fields : list (Field (option Z))) : Offering (option Z) :=
  {| offering_data :=
       {| data_requiredClaims :=
            {| claims_input_descriptors :=
                 [ {| descriptor_constraints :=
                        {| constraints_fields := fields |} |} ] |} |} |}.

Definition f_type : Field (option Z) := field ["$.type[*]"] "KnownCustomerCredential".
Definition f_issuer : Field (option Z) := field ["$.issuer"] "did:dht:issuer".
Definition f_other_issuer : Field (option Z) := field ["$.issuer"] "did:dht:other".
Definition f_country : Field (option Z) := field ["$.credentialSubject.country"] "KE".
Definition f_two_claims : Field (option Z) :=
  field ["$.credentialSubject.name"; "$.credentialSubject.country"] "x".

(** Messages of one exchange. *)
Definition meta : Metadata :=
  {| metadata_exchangeId := "ex1"; metadata_from := "did:customer";
     metadata_to := "PFI1" |}.

Definition message (body : MessageData (option Z))
    (privateData : option (list (string * val))) (at_ : string)
  : Message (option Z) :=
  {| message_body := body; message_privateData := privateData;
     message_metadata := meta; message_createdAt := at_ |}.

Definition rfq : Message (option Z) :=
  message (KindData "rfq" [("payinAmount", JStr "100")])
    (Some [("payout", JObj [("paymentDetails", JObj [("address", JStr "addr1")])])])
    "T0".

Definition rfq_bank : Message (option Z) :=
  message (KindData "rfq" [("payinAmount", JStr "100")])
    (Some [("payout",
            JObj [("paymentDetails",
                   JObj [("accountNumber", JStr "0123"); ("bankName", JStr "KCB")])])])
    "T0".

Definition rfq_bare : Message (option Z) :=
  message (KindData "rfq" [("payinAmount", JStr "100")]) None "T0".

Definition quote : Message (option Z) :=
  message
    (KindData "quote"
       [("payin", JObj [("amount", JStr "100"); ("fee", JStr "5");
                        ("currencyCode", JStr "USD")]);
        ("payout", JObj [("amount", JStr "90"); ("currencyCode", JStr "KES")]);
        ("expiresAt", JStr "2024-01-01")])
    None "T1".

Definition quote_no_fee : Message (option Z) :=
  message
    (KindData "quote"
       [("payin", JObj [("amount", JStr "100"); ("currencyCode", JStr "USD")])])
    None "T1".

Definition order : Message (option Z) := message (KindData "order" []) None "T2".

Definition close (reason : string) : Message (option Z) :=
  message (CloseData reason) None "T3".

Definition offering_kcc : Offering (option Z) := offering [f_type; f_issuer].

Definition offering_open : Offering (option Z) := offering [].

(** The record expected for the exchange [[rfq; quote]]. *)
Definition summary_quote : ClientExchange (option Z) :=
  {| ce_id := "ex1";
     ce_payinAmount := JStr "105";
     ce_payinCurrency := JStr "USD";
     ce_payoutAmount := JStr "90";
     ce_payoutCurrency := JStr "KES";
     ce_status := "quote";
     ce_createdTime := "T0";
     ce_expirationTime := Some (JStr "2024-01-01");
     ce_from := "You";
     ce_to := JStr "addr1";
     ce_pfiDid := "PFI1" |}.

(** An rfq whose private data has no payout. *)
Definition rfq_no_payout : Message (option Z) :=
  message (KindData "rfq" [("payinAmount", JStr "100")]) (Some []) "T0".

End Fixtures.


(** ** Facts about the strings *)

Lemma append_String (c : ascii) (s t : string) :
  String c s +:+ t = String c (s +:+ t).
Proof. reflexivity. Qed.

Lemma prefix_true_iff (sub s : string) :
  String.prefix sub s = true ↔ ∃ post, s = sub +:+ post.
Proof.
  revert s. induction sub as [|c sub IH]; intros s.
  - split; [intros _; by exists s | by destruct s].
  - destruct s as [|c' s]; simpl.
    + split; [done | intros [post ?]; done].
    + setoid_rewrite append_String.
      destruct (ascii_dec c c') as [->|Hne].
      * rewrite IH. split; intros [post Hp]; exists post; congruence.
      * split; [done | intros [post Hp]; congruence].
Qed.

Lemma includes_Contains (s sub : string) :
  includes s sub = true ↔ Contains s sub.
Proof.
  unfold Contains. induction s as [|c s IH].
  - change (includes "" sub) with (String.prefix sub "" || false).
    rewrite orb_false_r, prefix_true_iff. split.
    + intros [post Hp]. by exists "", post.
    + intros ([|c pre] & post & Hp); [by exists post | done].
  - change (includes (String c s) sub)
      with (String.prefix sub (String c s) || includes s sub).
    rewrite orb_true_iff, prefix_true_iff, IH. split.
    + intros [[post Hp] | (pre & post & Hp)].
      * by exists "", post.
      * exists (String c pre), post. rewrite append_String. by rewrite Hp.
    + intros ([|c' pre] & post & Hp).
      * left. by exists post.
      * right. exists pre, post. rewrite append_String in Hp. congruence.
Qed.

Lemma not_includes_Contains (s sub : string) :
  includes s sub = false ↔ ¬ Contains s sub.
Proof. rewrite <- includes_Contains. by destruct (includes s sub). Qed.

Section Matcher_facts.
Context {num : Type} `{!JsNumber num}.
Implicit Types (vc : VcDataModel num) (field c : Field num).

(** The loop over the claim keys adds one per key that the predicate
    accepts, whatever the order of enumeration. *)
Lemma for_in_count (P : string → Prop) `{!∀ key, Decision (P key)}
    (subject : gmap string (JsVal num)) (n : nat) :
  map_fold (λ key (_ : JsVal num) acc, if bool_decide (P key) then S acc else acc)
    n subject
  = n + size (filter P (dom subject)).
Proof.
  apply (map_fold_weak_ind
           (λ r (m : gmap string (JsVal num)), r = n + size (filter P (dom m)))).
  - rewrite dom_empty_L, filter_empty_L by apply _. rewrite size_empty. lia.
  - intros key v m r Hfresh ->.
    apply not_elem_of_dom in Hfresh.
    rewrite dom_insert_L, filter_union_L by apply _. rewrite size_union.
    + rewrite filter_singleton_L by apply _. case_bool_decide as HP.
      * rewrite decide_True by done. rewrite size_singleton. lia.
      * rewrite decide_False by done. rewrite size_empty. lia.
    + intros k Hk1 Hk2. apply elem_of_filter in Hk1 as [_ Hk1].
      apply elem_of_filter in Hk2 as [_ Hk2].
      apply elem_of_singleton in Hk1 as ->. done.
Qed.

Lemma field_body_count vc field (matches : nat) :
  field_body vc matches field = matches + spec_constraint_count vc field.
Proof.
  unfold field_body, spec_constraint_count, spec_claim_key_hits, spec_issuer_satisfied,
    spec_type_satisfied, for_in, Array_includes.
  destruct (vc_credentialSubject vc) as [subject|].
  - rewrite (for_in_count
               (λ key, "$.credentialSubject." +:+ key ∈ field_path field)).
    repeat match goal with |- context [if ?b then _ else _] => destruct b end; lia.
  - repeat match goal with |- context [if ?b then _ else _] => destruct b end; lia.
Qed.

Lemma spec_match_count_cons vc c (cs : list (Field num)) :
  spec_match_count vc (c :: cs) = spec_constraint_count vc c + spec_match_count vc cs.
Proof. reflexivity. Qed.

Lemma for_of_field_body vc (fields : list (Field num)) (matches : nat) :
  for_of (λ matches field, vc' ← defined (Some vc); Ok (field_body vc' matches field))
    matches fields
  = Ok (matches + spec_match_count vc fields).
Proof.
  revert matches. induction fields as [|field fields IH]; intros matches.
  - cbn. f_equal. lia.
  - rewrite spec_match_count_cons. cbn [for_of defined mbind result_bind].
    rewrite field_body_count. cbn [defined mbind result_bind] in IH.
    rewrite IH. f_equal. lia.
Qed.

(** The outcome of the matcher once the token has decoded and the offering
    has a first input descriptor. *)
Lemma isMatchingOffering_decoded
    (Jwt_parse_vc : option string → result (option (VcDataModel num)))
    (offering : Offering num) (credentials : list string) vc descriptor :
  Jwt_parse_vc (head credentials) = Ok (Some vc) →
  head (claims_input_descriptors (data_requiredClaims (offering_data offering)))
    = Some descriptor →
  isMatchingOffering Jwt_parse_vc offering credentials
  = Ok (spec_match_count vc (constraints_fields (descriptor_constraints descriptor))
        =? length (constraints_fields (descriptor_constraints descriptor)))%nat.
Proof.
  intros Hvc Hd. unfold isMatchingOffering. rewrite Hvc, Hd. simpl.
  pose proof (for_of_field_body vc
    (constraints_fields (descriptor_constraints descriptor)) 0) as Hloop.
  simpl in Hloop. rewrite Hloop. done.
Qed.

(** C1. For every offering and every list of credentials whose first token
    decodes, [isMatchingOffering] returns a boolean, and it returns [true]
    exactly when the match count accumulated over the constraint fields of
    the offering (one per claim key of the credential whose
    [credentialSubject] path a constraint references, one per satisfied
    issuer constraint, one per satisfied type constraint) equals the number
    of constraints in the field list. *)
Theorem isMatchingOffering_true_iff_count
    (Jwt_parse_vc : option string → result (option (VcDataModel num)))
    (offering : Offering num) (credentials : list string) vc descriptor :
  Jwt_parse_vc (head credentials) = Ok (Some vc) →
  head (claims_input_descriptors (data_requiredClaims (offering_data offering)))
    = Some descriptor →
  let fields := constraints_fields (descriptor_constraints descriptor) in
  (∃ b, isMatchingOffering Jwt_parse_vc offering credentials = Ok b)
  ∧ (isMatchingOffering Jwt_parse_vc offering credentials = Ok true
     ↔ spec_match_count vc fields = length fields).
Proof.
  intros Hvc Hd fields.
  rewrite (isMatchingOffering_decoded _ _ _ _ _ Hvc Hd). fold fields.
  split; [by eexists|].
  split.
  - intros [= Heq]. by apply Nat.eqb_eq.
  - intros ->. by rewrite Nat.eqb_refl.
Qed.

(** C8. The outcome of [isMatchingOffering] depends only on the offering and
    on the first credential token: two non-empty lists of credentials with
    the same first element give the same outcome. *)
Theorem isMatchingOffering_first_token
    (Jwt_parse_vc : option string → result (option (VcDataModel num)))
    (offering : Offering num) (credentials1 credentials2 : list string) :
  credentials1 ≠ [] → credentials2 ≠ [] →
  head credentials1 = head credentials2 →
  isMatchingOffering Jwt_parse_vc offering credentials1
  = isMatchingOffering Jwt_parse_vc offering credentials2.
Proof.
  intros _ _ Hhead. unfold isMatchingOffering. by rewrite Hhead.
Qed.

(** C10. An offering whose first input descriptor has an empty field list
    matches every list of credentials whose first token decodes.  And for
    every offering, empty or not, no input descriptor after the first is
    consulted: two offerings with the same first input descriptor have the
    same outcome on every list of credentials. *)
Theorem isMatchingOffering_no_constraints
    (Jwt_parse_vc : option string → result (option (VcDataModel num))) :
  (∀ (offering : Offering num) (credentials : list string) decoded descriptor,
     Jwt_parse_vc (head credentials) = Ok decoded →
     head (claims_input_descriptors
             (data_requiredClaims (offering_data offering)))
       = Some descriptor →
     constraints_fields (descriptor_constraints descriptor) = [] →
     isMatchingOffering Jwt_parse_vc offering credentials = Ok true)
  ∧ (∀ (offering offering' : Offering num) (credentials : list string),
       head (claims_input_descriptors
               (data_requiredClaims (offering_data offering')))
         = head (claims_input_descriptors
                   (data_requiredClaims (offering_data offering))) →
       isMatchingOffering Jwt_parse_vc offering' credentials
       = isMatchingOffering Jwt_parse_vc offering credentials).
Proof.
  split.
  - intros offering credentials decoded descriptor Hvc Hd Hfields.
    unfold isMatchingOffering. rewrite Hvc, Hd. simpl. by rewrite Hfields.
  - intros offering offering' credentials Hd. unfold isMatchingOffering.
    by rewrite Hd.
Qed.

End Matcher_facts.

(** ** Status derivation and labels *)

Lemma toLowerCase_append (s t : string) :
  toLowerCase (s +:+ t) = toLowerCase s +:+ toLowerCase t.
Proof.
  induction s as [|c s IH]; [done|].
  rewrite append_String. cbn [toLowerCase]. by rewrite IH, append_String.
Qed.

(** The match ignores case: a reason that contains a keyword in any casing
    contains it once lower-cased. *)
Lemma Contains_any_case (reason word : string) :
  Contains reason word → Contains (toLowerCase reason) (toLowerCase word).
Proof.
  intros (pre & post & ->). exists (toLowerCase pre), (toLowerCase post).
  by rewrite !toLowerCase_append.
Qed.

Section Status_facts.
Context {num : Type} `{!JsNumber num}.
Implicit Types (m : Message num).

(** C2. On a close message the status is given by the first rule that the
    lower-cased reason meets, in the order: contains "complete" or
    "success", completed; contains "expired", expired; contains
    "cancelled", cancelled; otherwise failed.  In particular a reason with
    both "complete" and "cancelled" gives completed.  On any other message
    the status is the kind tag of the message. *)
Theorem generateExchangeStatusValues_priority m :
  (∀ reason, message_body m = CloseData reason →
     let r := toLowerCase reason in
     (Contains r "complete" ∨ Contains r "success" →
        generateExchangeStatusValues m = "completed")
     ∧ (¬ Contains r "complete" → ¬ Contains r "success" →
        Contains r "expired" →
        generateExchangeStatusValues m = "expired")
     ∧ (¬ Contains r "complete" → ¬ Contains r "success" →
        ¬ Contains r "expired" → Contains r "cancelled" →
        generateExchangeStatusValues m = "cancelled")
     ∧ (¬ Contains r "complete" → ¬ Contains r "success" →
        ¬ Contains r "expired" → ¬ Contains r "cancelled" →
        generateExchangeStatusValues m = "failed")
     ∧ (Contains r "complete" → Contains r "cancelled" →
        generateExchangeStatusValues m = "completed"))
  ∧ (∀ kind payload, message_body m = KindData kind payload →
       generateExchangeStatusValues m = kind ∧ message_kind m = kind).
Proof.
  split.
  - intros reason Hbody r. unfold generateExchangeStatusValues.
    rewrite Hbody. fold r.
    repeat split.
    + intros [H | H]; apply includes_Contains in H; rewrite H;
        [done | by rewrite orb_true_r].
    + intros H1%not_includes_Contains H2%not_includes_Contains
        H3%includes_Contains. by rewrite H1, H2, H3.
    + intros H1%not_includes_Contains H2%not_includes_Contains
        H3%not_includes_Contains H4%includes_Contains.
      by rewrite H1, H2, H3, H4.
    + intros H1%not_includes_Contains H2%not_includes_Contains
        H3%not_includes_Contains H4%not_includes_Contains.
      by rewrite H1, H2, H3, H4.
    + intros H1%includes_Contains _. by rewrite H1.
  - intros kind payload Hbody.
    unfold generateExchangeStatusValues, message_kind. by rewrite Hbody.
Qed.

(** On the messages of the data model the label of a message is a function
    of its status alone and is always produced: rfq, quote, order, orderstatus, completed, expired,
    cancelled and failed give Requested, Quoted, Pending, Pending,
    Completed, Expired, Cancelled and Failed, and every other status gives
    "Unknown status".  Every string is the status of some message. *)
Theorem renderOrderStatus_labels :
  (∀ m,
     let status := generateExchangeStatusValues m in
     (status = "rfq" → renderOrderStatus m = "Requested")
     ∧ (status = "quote" → renderOrderStatus m = "Quoted")
     ∧ (status = "order" → renderOrderStatus m = "Pending")
     ∧ (status = "orderstatus" → renderOrderStatus m = "Pending")
     ∧ (status = "completed" → renderOrderStatus m = "Completed")
     ∧ (status = "expired" → renderOrderStatus m = "Expired")
     ∧ (status = "cancelled" → renderOrderStatus m = "Cancelled")
     ∧ (status = "failed" → renderOrderStatus m = "Failed")
     ∧ (status ∉ ["rfq"; "quote"; "order"; "orderstatus";
                  "completed"; "expired"; "cancelled"; "failed"] →
        renderOrderStatus m = "Unknown status"))
  ∧ (∀ status : string, ∃ m, generateExchangeStatusValues m = status).
Proof.
  split.
  - intros m status. unfold renderOrderStatus. fold status.
    repeat split; try (by intros ->).
    intros Hother.
    repeat match goal with
    | |- context [String.eqb status ?lit] =>
        destruct (String.eqb_spec status lit) as [Heq|_];
        [exfalso; apply Hother; rewrite Heq; set_solver|]
    end.
    done.
  - intros status. by exists (plain_message status).
Qed.

End Status_facts.

(** ** The projection of an exchange *)

Section Projection_facts.
Context {num : Type} `{!JsNumber num}.
Implicit Types (exchange : list (Message num)) (summary : ClientExchange num).
Implicit Types (latest rfq quote : Message num) (details : JsVal num).

Lemma mappedExchange_reads exchange :
  mappedExchange exchange =
    (latest ← defined (last exchange);
     rfq ← defined (find_kind "rfq" exchange);
     details ← private_payout_details rfq;
     quote ← defined (find_kind "quote" exchange);
     Ok (summary_record latest rfq quote details)).
Proof.
  unfold mappedExchange.
  destruct (last exchange) as [latest|]; [|done].
  destruct (find_kind "rfq" exchange) as [rfq|]; [|done].
  cbn [defined mbind result_bind].
  destruct (private_payout_details rfq) as [details|e]; [|done].
  destruct (find_kind "quote" exchange) as [quote|]; done.
Qed.

Lemma mappedExchange_Ok_inv exchange summary :
  mappedExchange exchange = Ok summary →
  ∃ latest rfq quote details,
    last exchange = Some latest
    ∧ find_kind "rfq" exchange = Some rfq
    ∧ find_kind "quote" exchange = Some quote
    ∧ private_payout_details rfq = Ok details
    ∧ summary = summary_record latest rfq quote details.
Proof.
  rewrite mappedExchange_reads.
  destruct (last exchange) as [latest|]; [|done].
  destruct (find_kind "rfq" exchange) as [rfq|]; [|done].
  cbn [defined mbind result_bind].
  destruct (private_payout_details rfq) as [details|e] eqn:Hd; [|done].
  destruct (find_kind "quote" exchange) as [quote|]; [|done].
  intros [= <-]. by exists latest, rfq, quote, details.
Qed.

(** Every failure of the callback is a TypeError. *)
Lemma private_payout_details_throws rfq e :
  private_payout_details rfq = Throw e → e = TypeError.
Proof.
  unfold private_payout_details, prop.
  destruct (message_privateData rfq) as [privateData|]; [|done].
  destruct (get privateData "payout"); congruence.
Qed.

(** The projection succeeds exactly on the exchanges that meet its
    preconditions. *)
Lemma projectable_iff exchange :
  projectable exchange = true ↔ ∃ summary, mappedExchange exchange = Ok summary.
Proof.
  rewrite mappedExchange_reads. unfold projectable.
  destruct (last exchange) as [latest|];
    [|split; [done | intros [? ?]; done]].
  destruct (find_kind "rfq" exchange) as [rfq|];
    [|split; [done | intros [? ?]; done]].
  cbn [defined mbind result_bind].
  destruct (find_kind "quote" exchange) as [quote|].
  - destruct (private_payout_details rfq) as [details|e].
    + split; [by eexists | done].
    + split; [done | intros [? ?]; done].
  - destruct (private_payout_details rfq) as [details|e];
      (split; [done | intros [? ?]; done]).
Qed.

(** Without a quote message the callback throws, whatever else the
    exchange holds: line 104 reads [quoteMessage.data]. *)
Lemma mappedExchange_without_quote exchange :
  find_kind "quote" exchange = None → mappedExchange exchange = Throw TypeError.
Proof.
  intros Hquote. rewrite mappedExchange_reads, Hquote.
  destruct (last exchange) as [latest|]; [|done].
  destruct (find_kind "rfq" exchange) as [rfq|]; [|done].
  cbn [defined mbind result_bind].
  destruct (private_payout_details rfq) as [details|e] eqn:Hd; [done|].
  by rewrite (private_payout_details_throws _ _ Hd).
Qed.

(** The printed number at line 103 is never the empty string, so the
    alternative after [||] is never taken. *)
Lemma payinAmount_value_printed (fee payinAmount : JsVal num) rfq :
  payinAmount_value fee payinAmount rfq =
    JStr (num_to_string
            (if truthy fee
             then num_add (Number payinAmount) (Number fee)
             else Number payinAmount)).
Proof.
  unfold payinAmount_value, js_or.
  set (n := if truthy fee then _ else _).
  cbn [truthy]. pose proof (num_to_string_nonempty n) as Hn.
  by destruct (String.eqb_spec (num_to_string n) "").
Qed.

(** X8. When the payin of the quote carries a (truthy) fee, [payinAmount] is
    the printed sum of amount and fee; otherwise the printed amount. *)
Lemma payinAmount_of_quote exchange summary :
  mappedExchange exchange = Ok summary →
  ∃ quote, find_kind "quote" exchange = Some quote ∧
    let fee := optprop (message_data quote "payin") "fee" in
    let amount := optprop (message_data quote "payin") "amount" in
    (truthy fee = true →
       ce_payinAmount summary
       = JStr (num_to_string (num_add (Number amount) (Number fee))))
    ∧ (truthy fee = false →
       ce_payinAmount summary = JStr (num_to_string (Number amount))).
Proof.
  intros (latest & rfq & quote & details & _ & _ & Hq & _ & ->)%mappedExchange_Ok_inv.
  exists quote. split; [done|]. intros fee amount.
  cbn [summary_record ce_payinAmount]. rewrite payinAmount_value_printed.
  fold fee amount. split; intros ->; done.
Qed.

(** What the three keys read from the quote hold in a record: the payin
    currency and the payout amount are null when missing, the payout
    currency is left undefined. *)
Lemma currencies_of_quote exchange summary :
  mappedExchange exchange = Ok summary →
  ∃ quote, find_kind "quote" exchange = Some quote ∧
    let payin := message_data quote "payin" in
    let payout := message_data quote "payout" in
    ce_payinCurrency summary
    = (if nullish (optprop payin "currencyCode")
       then JNull else optprop payin "currencyCode")
    ∧ ce_payoutAmount summary
      = (if nullish (optprop payout "amount")
         then JNull else optprop payout "amount")
    ∧ ce_payoutCurrency summary = optprop payout "currencyCode".
Proof.
  intros (latest & rfq & quote & details & _ & _ & Hq & _ & ->)%mappedExchange_Ok_inv.
  by exists quote.
Qed.

Lemma separator_nonempty (x y : string) : (x +:+ ", ") +:+ y ≠ "".
Proof. by destruct x. Qed.

(** X9. The concatenation at line 111 always holds the separator, so it is
    truthy and the literal after the second [||] is never taken. *)
Lemma to_value_no_default details :
  to_value details =
    js_or (optprop details "address")
      (JStr ((ToString (optprop details "accountNumber") +:+ ", ")
             +:+ ToString (optprop details "bankName"))).
Proof.
  unfold to_value, js_add. cbn [is_stringy ToString].
  rewrite orb_true_r. cbn [is_stringy orb ToString].
  set (text := (_ +:+ ", ") +:+ _).
  assert (truthy (JStr text : JsVal num) = true) as Htext.
  { cbn [truthy]. pose proof (separator_nonempty
      (ToString (optprop details "accountNumber"))
      (ToString (optprop details "bankName"))) as Hne.
    fold text in Hne. by destruct (String.eqb_spec text ""). }
  unfold js_or at 2.
  destruct (truthy (optprop details "address")) eqn:Haddr.
  - unfold js_or. by rewrite Haddr.
  - unfold js_or. by rewrite Htext, Haddr.
Qed.

(** C7. In the record of a projected exchange the key [expirationTime] is
    present exactly when the last message is a quote; its value is then the
    [expiresAt] of the quote, or null when the quote has none; for any
    other last message the key is absent. *)
Theorem expirationTime_iff_latest_quote exchange summary :
  mappedExchange exchange = Ok summary →
  ∃ latest quote,
    last exchange = Some latest
    ∧ find_kind "quote" exchange = Some quote
    ∧ (is_Some (ce_expirationTime summary) ↔ message_kind latest = "quote")
    ∧ (message_kind latest = "quote" →
       ce_expirationTime summary
       = Some (if nullish (message_data quote "expiresAt")
               then JNull else message_data quote "expiresAt"))
    ∧ (message_kind latest ≠ "quote" → ce_expirationTime summary = None).
Proof.
  intros (latest & rfq & quote & details & Hl & _ & Hq & _ & ->)%mappedExchange_Ok_inv.
  exists latest, quote. split; [done|]. split; [done|].
  cbn [summary_record ce_expirationTime]. unfold js_nullish.
  destruct (String.eqb_spec (message_kind latest) "quote") as [Hk|Hk].
  - repeat split; first [done | by intros _].
  - repeat split; first [done | by intros [? ?]].
Qed.

(** An exchange that meets the
    preconditions of the projection has a summary record, and projecting
    it twice gives that same record both times, field by field, the
    optional key included. *)
Theorem mappedExchange_twice exchange :
  projectable exchange = true →
  ∃ summary,
    mappedExchange exchange = Ok summary
    ∧ Array_map mappedExchange [exchange; exchange] = Ok [summary; summary]
    ∧ fetchExchanges (Ok [exchange; exchange]) = Ok [summary; summary].
Proof.
  intros [summary Hs]%projectable_iff. exists summary.
  split; [done|]. unfold fetchExchanges. cbn. by rewrite Hs.
Qed.

End Projection_facts.

(** ** The fixtures, evaluated *)

Import Fixtures.

(** The matcher on 0, 1 and several constraints: a credential that meets
    all of them, none of them, and some of them. *)
Example matching_fixtures :
  isMatchingOffering parse offering_open ["kcc.jwt"] = Ok true
  ∧ isMatchingOffering parse (offering [f_type]) ["kcc.jwt"] = Ok true
  ∧ isMatchingOffering parse (offering [f_other_issuer]) ["kcc.jwt"] = Ok false
  ∧ isMatchingOffering parse offering_kcc ["kcc.jwt"] = Ok true
  ∧ isMatchingOffering parse (offering [f_type; f_other_issuer]) ["kcc.jwt"]
    = Ok false
  ∧ isMatchingOffering parse offering_kcc ["bad.jwt"]
    = Throw (External "malformed token")
  ∧ isMatchingOffering parse offering_kcc [] = Throw (External "malformed token").
Proof. repeat split; vm_compute; reflexivity. Qed.

(** The count is not a per-constraint test: one constraint that names two
    claim keys makes up for an issuer constraint that is not met. *)
Example matching_counts_keys :
  spec_match_count vc_kcc [f_two_claims; f_other_issuer] = 2
  ∧ isMatchingOffering parse (offering [f_two_claims; f_other_issuer]) ["kcc.jwt"]
    = Ok true.
Proof. split; vm_compute; reflexivity. Qed.

(** C1 on the offering with a type and an issuer constraint. *)
Lemma isMatchingOffering_true_iff_count_witness :
  (∃ b, isMatchingOffering parse offering_kcc ["kcc.jwt"] = Ok b)
  ∧ (isMatchingOffering parse offering_kcc ["kcc.jwt"] = Ok true
     ↔ spec_match_count vc_kcc [f_type; f_issuer] = 2).
Proof.
  exact (isMatchingOffering_true_iff_count parse offering_kcc ["kcc.jwt"] vc_kcc
           {| descriptor_constraints :=
                {| constraints_fields := [f_type; f_issuer] |} |}
           eq_refl eq_refl).
Defined.

(** C8 on two lists that start with the same token. *)
Lemma isMatchingOffering_first_token_witness :
  isMatchingOffering parse offering_kcc ["kcc.jwt"; "bad.jwt"]
  = isMatchingOffering parse offering_kcc ["kcc.jwt"].
Proof.
  apply (isMatchingOffering_first_token parse offering_kcc
           ["kcc.jwt"; "bad.jwt"] ["kcc.jwt"]); [discriminate | discriminate | reflexivity].
Defined.

(** C10 on the offering without constraints, and on the offering with a
    type and an issuer constraint followed by a second input descriptor. *)
Lemma isMatchingOffering_no_constraints_witness :
  isMatchingOffering parse offering_open ["kcc.jwt"] = Ok true
  ∧ isMatchingOffering parse
      {| offering_data :=
           {| data_requiredClaims :=
                {| claims_input_descriptors :=
                     [ {| descriptor_constraints :=
                            {| constraints_fields := [f_type; f_issuer] |} |};
                       {| descriptor_constraints :=
                            {| constraints_fields := [f_other_issuer] |} |} ]
                |} |} |}
      ["kcc.jwt"]
    = isMatchingOffering parse offering_kcc ["kcc.jwt"].
Proof.
  split.
  - apply (proj1 (isMatchingOffering_no_constraints parse) offering_open
             ["kcc.jwt"] (Some vc_kcc)
             {| descriptor_constraints := {| constraints_fields := [] |} |});
      reflexivity.
  - apply (proj2 (isMatchingOffering_no_constraints parse)). reflexivity.
Defined.

(** The close reasons of section 8 of the specification. *)
Example close_reasons :
  generateExchangeStatusValues (close "Transaction complete") = "completed"
  ∧ generateExchangeStatusValues (close "payment EXPIRED") = "expired"
  ∧ generateExchangeStatusValues (close "Order CANCELLED") = "cancelled"
  ∧ generateExchangeStatusValues (close "unknown failure") = "failed"
  ∧ generateExchangeStatusValues (close "cancelled, not complete") = "completed"
  ∧ generateExchangeStatusValues rfq = "rfq"
  ∧ generateExchangeStatusValues quote = "quote".
Proof. repeat split; vm_compute; reflexivity. Qed.

(** The scenarios of section 8 with a quote in the exchange. *)
Example projected_quote : mappedExchange [rfq; quote] = Ok summary_quote.
Proof. vm_compute. reflexivity. Qed.

Example projected_close :
  ∃ summary,
    mappedExchange [rfq; quote; close "Order cancelled by user"] = Ok summary
    ∧ ce_status summary = "cancelled"
    ∧ ce_expirationTime summary = None.
Proof. eexists. split; [vm_compute; reflexivity | split; reflexivity]. Qed.

Example projected_bank_account :
  ∃ summary,
    mappedExchange [rfq_bank; quote_no_fee; order] = Ok summary
    ∧ ce_payinAmount summary = JStr "100"
    ∧ ce_to summary = JStr "0123, KCB".
Proof. eexists. split; [vm_compute; reflexivity | split; reflexivity]. Qed.

(** C7 on the exchange that ends with its quote. *)
Lemma expirationTime_iff_latest_quote_witness :
  ∃ latest quote',
    last [rfq; quote] = Some latest
    ∧ find_kind "quote" [rfq; quote] = Some quote'
    ∧ (is_Some (ce_expirationTime summary_quote) ↔ message_kind latest = "quote")
    ∧ (message_kind latest = "quote" →
       ce_expirationTime summary_quote
       = Some (if nullish (message_data quote' "expiresAt")
               then JNull else message_data quote' "expiresAt"))
    ∧ (message_kind latest ≠ "quote" → ce_expirationTime summary_quote = None).
Proof.
  apply (expirationTime_iff_latest_quote [rfq; quote] summary_quote).
  vm_compute. reflexivity.
Defined.

(** The same, on the exchange that ends with its quote. *)
Lemma mappedExchange_twice_witness :
  ∃ summary,
    mappedExchange [rfq; quote] = Ok summary
    ∧ Array_map mappedExchange [[rfq; quote]; [rfq; quote]] = Ok [summary; summary]
    ∧ fetchExchanges (Ok [[rfq; quote]; [rfq; quote]]) = Ok [summary; summary].
Proof.
  apply (mappedExchange_twice [rfq; quote]). vm_compute. reflexivity.
Defined.

(** C3. On the exchange that holds only an rfq asking for "100", the
    callback throws a TypeError at line 104 and [fetchExchanges] throws it
    on under its prefix, so no record with [payinAmount] "100" is built; the
    value of the key alone is the printed NaN, not the amount of the rfq. *)
Theorem payinAmount_without_quote :
  mappedExchange [rfq] = Throw TypeError
  ∧ fetchExchanges (Ok [[rfq]])
    = Throw (ErrorMsg "Error fetching exchanges: " TypeError)
  ∧ payinAmount_value JUndefined JUndefined rfq = JStr "NaN"
  ∧ message_data rfq "payinAmount" = JStr "100".
Proof. repeat split; vm_compute; reflexivity. Qed.

(** C4. On an rfq without an address, an account number and a bank name,
    the key [to] of the record is "undefined, undefined", not "Unknown". *)
Theorem to_without_payment_details :
  private_payout_details rfq_bare = Ok JUndefined
  ∧ to_value (JUndefined : val) = JStr "undefined, undefined"
  ∧ ∃ summary,
      mappedExchange [rfq_bare; quote] = Ok summary
      ∧ ce_to summary = JStr "undefined, undefined".
Proof.
  split; [reflexivity|]. split; [reflexivity|].
  eexists. split; [vm_compute; reflexivity | reflexivity].
Qed.

(** C6. On a quote without a payout, [payoutAmount] is null but
    [payoutCurrency] is undefined; and without any quote the callback
    throws instead of giving null currencies. *)
Theorem payoutCurrency_without_payout :
  (∃ summary,
     mappedExchange [rfq; quote_no_fee] = Ok summary
     ∧ ce_payinCurrency summary = JStr "USD"
     ∧ ce_payoutAmount summary = JNull
     ∧ ce_payoutCurrency summary = JUndefined)
  ∧ mappedExchange [rfq] = Throw TypeError.
Proof.
  split; [|vm_compute; reflexivity].
  eexists. split; [vm_compute; reflexivity | repeat split; reflexivity].
Qed.

(** ** The title of a credential *)

Lemma upper_not_lower (c : ascii) : is_upper c = true → is_lower c = false.
Proof.
  unfold is_upper, is_lower. cbv zeta.
  intros [H1%Nat.leb_le H2%Nat.leb_le]%andb_prop.
  apply andb_false_intro1. apply Nat.leb_gt. lia.
Qed.

Lemma capital_matches_upper before c rest :
  capital_matches before c rest = true → is_upper c = true.
Proof.
  unfold capital_matches. destruct before as [b|]; [|done].
  destruct (is_upper c); [done|]. by rewrite andb_false_r.
Qed.

(** The lookahead sees the same thing in a text and in its replacement: a
    space is only put in front of a capital, which is no lower-case letter. *)
Lemma next_is_lower_replace before text :
  next_is_lower (replace_capitals before text) = next_is_lower text.
Proof.
  destruct text as [|c rest]; [done|]. cbn [replace_capitals].
  destruct (capital_matches before c rest) eqn:Hm; [|done].
  cbn [next_is_lower]. apply capital_matches_upper, upper_not_lower in Hm.
  by rewrite Hm.
Qed.

Lemma remove_spaces_replace before text :
  remove_spaces (replace_capitals before text) = remove_spaces text.
Proof.
  revert before. induction text as [|c rest IH]; intros before; [done|].
  cbn [replace_capitals].
  destruct (capital_matches before c rest) eqn:Hm; cbn [remove_spaces].
  - change (Ascii.eqb " " " ") with true. cbn iota. by rewrite IH.
  - by rewrite IH.
Qed.

Lemma length_replace before text :
  String.length (replace_capitals before text)
  = String.length text + count_capitals before text.
Proof.
  revert before. induction text as [|c rest IH]; intros before; [done|].
  cbn [replace_capitals count_capitals].
  destruct (capital_matches before c rest); cbn [String.length];
    rewrite IH; lia.
Qed.

(** Every match of the pattern is still a match after the replacement, and
    no new one appears. *)
Lemma count_capitals_replace before text :
  count_capitals before (replace_capitals before text)
  = count_capitals before text.
Proof.
  revert before. induction text as [|c rest IH]; intros before; [done|].
  cbn [replace_capitals count_capitals].
  destruct (capital_matches before c rest) eqn:Hm.
  - cbn [count_capitals].
    assert (capital_matches before " " (String c (replace_capitals (Some c) rest))
            = false) as ->.
    { unfold capital_matches. change (is_upper " ") with false.
      by rewrite andb_false_r. }
    assert (capital_matches (Some " "%char) c (replace_capitals (Some c) rest) = true)
      as ->.
    { unfold capital_matches in *. rewrite next_is_lower_replace.
      change (is_upper " ") with false. cbn [negb andb].
      destruct before as [b|]; [|done].
      destruct (is_upper b); [done|]. done. }
    rewrite IH. lia.
  - cbn [count_capitals].
    assert (capital_matches before c (replace_capitals (Some c) rest) = false)
      as ->.
    { unfold capital_matches in *. by rewrite next_is_lower_replace. }
    by rewrite IH.
Qed.

Lemma replace_without_capitals before text :
  count_capitals before text = 0 → replace_capitals before text = text.
Proof.
  revert before. induction text as [|c rest IH]; intros before; [done|].
  cbn [replace_capitals count_capitals].
  destruct (capital_matches before c rest); [lia|].
  intros H. by rewrite IH by lia.
Qed.

(** X15. Formatting a title again puts a second space at every place where
    the first pass put one: the replacement of line 46 gives the same text
    on its own output only for texts that it leaves unchanged. *)
Theorem replace_capitals_twice (text : string) :
  replace_capitals None (replace_capitals None text) = replace_capitals None text
  ↔ replace_capitals None text = text.
Proof.
  split.
  - intros Heq. apply replace_without_capitals.
    apply (f_equal String.length) in Heq.
    rewrite !length_replace, count_capitals_replace in Heq. lia.
  - intros Heq. by rewrite !Heq.
Qed.

(** ** Asking for a credential and showing it *)

Lemma append_inv_head (p a b : string) : p +:+ a = p +:+ b → a = b.
Proof.
  induction p as [|c p IH]; [done|].
  rewrite !append_String. intros [= H]. by apply IH.
Qed.

Lemma includes_amp_String (c : ascii) (s : string) :
  includes (String c s) "&" = false → c ≠ "&"%char ∧ includes s "&" = false.
Proof.
  change (includes (String c s) "&")
    with (String.prefix "&" (String c s) || includes s "&").
  intros [Hp Hs]%orb_false_elim. split; [|done].
  intros ->. by destruct s.
Qed.

(** Two texts without an ampersand, each followed by an ampersand, can be
    told apart from what follows them. *)
Lemma split_at_amp (a a' r r' : string) :
  includes a "&" = false → includes a' "&" = false →
  a +:+ String "&" r = a' +:+ String "&" r' → a = a' ∧ r = r'.
Proof.
  revert a'. induction a as [|c a IH]; intros [|c' a'] Ha Ha' Heq.
  - by injection Heq as ->.
  - rewrite append_String in Heq. injection Heq as <- _.
    by apply includes_amp_String in Ha' as [? _].
  - rewrite append_String in Heq. injection Heq as -> _.
    by apply includes_amp_String in Ha as [? _].
  - rewrite !append_String in Heq. injection Heq as -> Heq.
    apply includes_amp_String in Ha as [_ Ha].
    apply includes_amp_String in Ha' as [_ Ha'].
    destruct (IH a' Ha Ha' Heq) as [-> ->]. done.
Qed.

Section Credential_facts.
Context {num : Type} `{!JsNumber num}.
Variable Jwt_parse_vc : option string → result (option (VcDataModel num)).
Variable vc_issuanceDate : VcDataModel num → JsVal num.
Variable toLocaleDateString_medium : JsVal num → string.

Abbreviation render :=
  (renderCredential Jwt_parse_vc vc_issuanceDate toLocaleDateString_medium).

(** X16. The address asked of the issuer tells the name, the country and
    the identifier apart, as long as neither the printed name nor the
    printed country holds an ampersand: the values go into the address
    unescaped. *)
Theorem credential_url_injective (subjectDid subjectDid' : string)
    (data data' : list (string * JsVal num)) :
  includes (ToString (get data "customerName")) "&" = false →
  includes (ToString (get data' "customerName")) "&" = false →
  includes (ToString (get data "country")) "&" = false →
  includes (ToString (get data' "country")) "&" = false →
  credential_url subjectDid data = credential_url subjectDid' data' →
  ToString (get data "customerName") = ToString (get data' "customerName")
  ∧ ToString (get data "country") = ToString (get data' "country")
  ∧ subjectDid = subjectDid'.
Proof.
  intros Hn Hn' Hc Hc' Heq. unfold credential_url in Heq.
  apply append_inv_head in Heq.
  change ("&country=" +:+ ?x) with (String "&" ("country=" +:+ x)) in Heq.
  apply split_at_amp in Heq as [Hname Heq]; [|done..].
  apply append_inv_head in Heq.
  change ("&did=" +:+ ?x) with (String "&" ("did=" +:+ x)) in Heq.
  apply split_at_amp in Heq as [Hcountry Heq]; [|done..].
  apply append_inv_head in Heq. done.
Qed.

(** The request is one read of that address; what the network answers, or
    throws, is handed on as it is. *)
Lemma requestCredentialFromIssuer_fetches (fetch_text : string → result string)
    (didUri : string) (customerName country : JsVal num) :
  requestCredentialFromIssuer fetch_text didUri customerName country
  = fetch_text
      (credential_url didUri
         [("customerName", customerName); ("country", country)]).
Proof.
  unfold requestCredentialFromIssuer, getCredentialFromIssuer.
  by destruct (fetch_text _).
Qed.

(** X13. How [renderCredential] ends: an exception of the decoder is handed
    on; a token without credential, without type list, with an empty type
    list or without subject gives a TypeError; every other token gives a
    record, in which a missing name or country is undefined. *)
Theorem renderCredential_outcomes (credentialJwt : string) :
  (∀ e, Jwt_parse_vc (Some credentialJwt) = Throw e →
     render credentialJwt = Throw e)
  ∧ (Jwt_parse_vc (Some credentialJwt) = Ok None →
     render credentialJwt = Throw TypeError)
  ∧ (∀ vc, Jwt_parse_vc (Some credentialJwt) = Ok (Some vc) →
       match vc_type vc, vc_credentialSubject vc with
       | None, _ | Some [], _ | _, None => render credentialJwt = Throw TypeError
       | Some types, Some subject =>
           ∃ tag, last types = Some tag ∧
             render credentialJwt
             = Ok {| rendered_title := replace_capitals None tag;
                     rendered_name := default JUndefined (subject !! "name");
                     rendered_countryCode :=
                       default JUndefined (subject !! "country");
                     rendered_issuanceDate :=
                       toLocaleDateString_medium (vc_issuanceDate vc) |}
       end).
Proof.
  unfold renderCredential. repeat split.
  - by intros e ->.
  - by intros ->.
  - intros vc ->. cbn [mbind result_bind defined].
    destruct (vc_type vc) as [[|t types]|]; [done| |done].
    cbn [mbind result_bind defined].
    destruct (last (t :: types)) as [tag|] eqn:Hlast;
      [|by apply last_None in Hlast].
    cbn [mbind result_bind defined].
    destruct (vc_credentialSubject vc) as [subject|]; [|done].
    by exists tag.
Qed.

(** X14. The title of a rendered credential is its last type tag with
    spaces put in: without their spaces the two are the same text, and the
    title is at least as long as the tag.  No other type tag plays a part. *)
Theorem renderCredential_title (credentialJwt : string)
    (rendered : RenderedCredential num) :
  render credentialJwt = Ok rendered →
  ∃ vc types tag,
    Jwt_parse_vc (Some credentialJwt) = Ok (Some vc)
    ∧ vc_type vc = Some types
    ∧ last types = Some tag
    ∧ remove_spaces (rendered_title rendered) = remove_spaces tag
    ∧ (String.length tag ≤ String.length (rendered_title rendered))%nat.
Proof.
  unfold renderCredential.
  destruct (Jwt_parse_vc (Some credentialJwt)) as [[vc|]|e]; [|done..].
  cbn [mbind result_bind defined].
  destruct (vc_type vc) as [types|] eqn:Htypes; [|done].
  cbn [mbind result_bind defined].
  destruct (last types) as [tag|] eqn:Hlast; [|done].
  cbn [mbind result_bind defined].
  destruct (vc_credentialSubject vc) as [subject|]; [|done].
  intros [= <-]. exists vc, types, tag. cbn [rendered_title].
  rewrite remove_spaces_replace, length_replace. repeat split; first [done | lia].
Qed.

End Credential_facts.

(** ** More on the matcher *)

Local Open Scope nat_scope.

Lemma sum_of_at_most_ones {A : Type} (f : A → nat) (l : list A) :
  Forall (λ x, f x ≤ 1) l →
  sum_list (f <$> l) ≤ length l
  ∧ (sum_list (f <$> l) = length l ↔ Forall (λ x, f x = 1) l).
Proof.
  induction 1 as [|x l Hx Hl [IHle IHeq]]; [by split|].
  change (sum_list (f <$> x :: l)) with (f x + sum_list (f <$> l)).
  cbn [length]. split; [lia|].
  rewrite Forall_cons. rewrite <- IHeq. lia.
Qed.

Section Matcher_more.
Context {num : Type} `{!JsNumber num}.
Variable Jwt_parse_vc : option string → result (option (VcDataModel num)).
Implicit Types (vc : VcDataModel num) (c : Field num) (offering : Offering num).

(** Without a credential the first turn of the loop faults. *)
Lemma for_of_without_vc (c : Field num) (cs : list (Field num)) (matches : nat) :
  for_of
    (λ matches field,
       vc ← defined (None : option (VcDataModel num));
       Ok (field_body vc matches field))
    matches (c :: cs)
  = Throw TypeError.
Proof. reflexivity. Qed.

(** Every way the matcher can end. *)
Lemma isMatchingOffering_cases offering (credentials : list string) :
  isMatchingOffering Jwt_parse_vc offering credentials =
    match Jwt_parse_vc (head credentials) with
    | Throw e => Throw e
    | Ok decoded =>
        match head (claims_input_descriptors
                      (data_requiredClaims (offering_data offering))) with
        | None => Throw TypeError
        | Some descriptor =>
            let fields := constraints_fields (descriptor_constraints descriptor) in
            match decoded, fields with
            | Some vc, _ =>
                Ok (spec_match_count vc fields =? length fields)%nat
            | None, [] => Ok true
            | None, _ :: _ => Throw TypeError
            end
        end
    end.
Proof.
  destruct (Jwt_parse_vc (head credentials)) as [[vc|]|e] eqn:Hvc;
    destruct (head (claims_input_descriptors
                      (data_requiredClaims (offering_data offering))))
      as [descriptor|] eqn:Hd.
  - by apply isMatchingOffering_decoded.
  - unfold isMatchingOffering. by rewrite Hvc, Hd.
  - unfold isMatchingOffering. rewrite Hvc, Hd.
    cbn [mbind result_bind defined].
    by destruct (constraints_fields (descriptor_constraints descriptor)).
  - unfold isMatchingOffering. by rewrite Hvc, Hd.
  - unfold isMatchingOffering. by rewrite Hvc.
  - unfold isMatchingOffering. by rewrite Hvc.
Qed.

(** X1. Three ways in which the matcher throws: an exception of the decoder
    is handed on as it is; an offering without input descriptor gives a
    TypeError once the token has decoded; a decoded payload without
    credential gives a TypeError as soon as the first input descriptor has
    a field.  With an empty field list that same payload gives [true]. *)
Theorem isMatchingOffering_throws offering (credentials : list string) :
  (∀ e, Jwt_parse_vc (head credentials) = Throw e →
     isMatchingOffering Jwt_parse_vc offering credentials = Throw e)
  ∧ (∀ decoded, Jwt_parse_vc (head credentials) = Ok decoded →
       head (claims_input_descriptors
               (data_requiredClaims (offering_data offering))) = None →
       isMatchingOffering Jwt_parse_vc offering credentials = Throw TypeError)
  ∧ (∀ descriptor, Jwt_parse_vc (head credentials) = Ok None →
       head (claims_input_descriptors
               (data_requiredClaims (offering_data offering)))
         = Some descriptor →
       match constraints_fields (descriptor_constraints descriptor) with
       | [] => isMatchingOffering Jwt_parse_vc offering credentials = Ok true
       | _ :: _ =>
           isMatchingOffering Jwt_parse_vc offering credentials = Throw TypeError
       end).
Proof.
  rewrite isMatchingOffering_cases. repeat split.
  - by intros e ->.
  - by intros decoded -> ->.
  - intros descriptor -> ->. cbv zeta.
    by destruct (constraints_fields (descriptor_constraints descriptor)).
Qed.

Lemma spec_match_count_perm vc (cs cs' : list (Field num)) :
  cs ≡ₚ cs' → spec_match_count vc cs = spec_match_count vc cs'.
Proof.
  induction 1 as [|c cs cs' _ IH|c c' cs|cs1 cs2 cs3 _ IH1 _ IH2].
  - done.
  - by rewrite !spec_match_count_cons, IH.
  - rewrite !spec_match_count_cons. lia.
  - by rewrite IH1.
Qed.

(** X2. The order of the fields plays no part: two offerings whose first
    input descriptors hold the same fields in a different order have the
    same outcome on every list of credentials. *)
Theorem isMatchingOffering_field_order offering offering'
    (credentials : list string) (descriptor descriptor' : InputDescriptor) :
  head (claims_input_descriptors (data_requiredClaims (offering_data offering)))
    = Some descriptor →
  head (claims_input_descriptors (data_requiredClaims (offering_data offering')))
    = Some descriptor' →
  constraints_fields (descriptor_constraints descriptor)
    ≡ₚ constraints_fields (descriptor_constraints descriptor') →
  isMatchingOffering Jwt_parse_vc offering credentials
  = isMatchingOffering Jwt_parse_vc offering' credentials.
Proof.
  intros Hd Hd' Hperm. rewrite !isMatchingOffering_cases, Hd, Hd'.
  destruct (Jwt_parse_vc (head credentials)) as [[vc|]|e]; [ | | done]; cbv zeta.
  - by rewrite (spec_match_count_perm vc _ _ Hperm), (Permutation_length Hperm).
  - destruct (constraints_fields (descriptor_constraints descriptor)) as [|c cs],
      (constraints_fields (descriptor_constraints descriptor')) as [|c' cs'];
      try done.
    + by apply Permutation_nil_cons in Hperm.
    + symmetry in Hperm. by apply Permutation_nil_cons in Hperm.
Qed.

Lemma size_filter_at_most_one (P : string → Prop) `{!∀ key, Decision (P key)}
    (X : gset string) :
  (∀ k1 k2, P k1 → P k2 → k1 = k2) → size (filter P X) ≤ 1.
Proof.
  intros Huniq.
  destruct (set_choose_or_empty (filter P X)) as [[k Hk]|Hempty].
  - rewrite <- (size_singleton (C:=gset string) k). apply subseteq_size.
    intros k' Hk'. apply elem_of_singleton.
    apply elem_of_filter in Hk as [Hk _]. apply elem_of_filter in Hk' as [Hk' _].
    by apply Huniq.
  - apply size_empty_iff in Hempty. lia.
Qed.

Lemma size_filter_none (P : string → Prop) `{!∀ key, Decision (P key)}
    (X : gset string) :
  (∀ k, ¬ P k) → size (filter P X) = 0.
Proof.
  intros Hnone. apply size_empty_iff. intros k.
  split; [|by intros ?%not_elem_of_empty].
  intros [Hk _]%elem_of_filter. by destruct (Hnone k).
Qed.

(** A field with a single path counts for at most one: the three kinds of
    path exclude one another, and two claim keys never share a path. *)
Lemma spec_constraint_count_single vc c :
  length (field_path c) = 1 → spec_constraint_count vc c ≤ 1.
Proof.
  destruct (field_path c) as [|p [|? ?]] eqn:Hpath; [done| |done]. intros _.
  unfold spec_constraint_count, spec_claim_key_hits, spec_issuer_satisfied,
    spec_type_satisfied. rewrite Hpath.
  destruct (decide (p = "$.issuer")) as [->|Hissuer];
    [|destruct (decide (p = "$.type[*]")) as [->|Htype]].
  - rewrite (bool_decide_eq_false_2 ("$.type[*]" ∈ ["$.issuer"]))
      by (by intros [=]%list_elem_of_singleton).
    cbn [andb].
    assert (match vc_credentialSubject vc with
            | Some subject =>
                size (filter (λ key, "$.credentialSubject." +:+ key ∈ ["$.issuer"])
                             (dom subject))
            | None => 0
            end = 0) as ->.
    { destruct (vc_credentialSubject vc) as [subject|]; [|done].
      apply size_filter_none. intros k Hk%list_elem_of_singleton.
      compute in Hk. discriminate. }
    destruct (_ && _); lia.
  - rewrite (bool_decide_eq_false_2 ("$.issuer" ∈ ["$.type[*]"]))
      by (by intros [=]%list_elem_of_singleton).
    cbn [andb].
    assert (match vc_credentialSubject vc with
            | Some subject =>
                size (filter (λ key, "$.credentialSubject." +:+ key ∈ ["$.type[*]"])
                             (dom subject))
            | None => 0
            end = 0) as ->.
    { destruct (vc_credentialSubject vc) as [subject|]; [|done].
      apply size_filter_none. intros k Hk%list_elem_of_singleton.
      compute in Hk. discriminate. }
    destruct (_ && _); lia.
  - rewrite (bool_decide_eq_false_2 ("$.issuer" ∈ [p]))
      by (intros ?%list_elem_of_singleton; congruence).
    rewrite (bool_decide_eq_false_2 ("$.type[*]" ∈ [p]))
      by (intros ?%list_elem_of_singleton; congruence).
    cbn [andb].
    destruct (vc_credentialSubject vc) as [subject|]; [|lia].
    pose proof (size_filter_at_most_one
                  (λ key, "$.credentialSubject." +:+ key ∈ [p]) (dom subject))
      as Hsize.
    rewrite Nat.add_0_r, Nat.add_0_r. apply Hsize.
    intros k1 k2 H1%list_elem_of_singleton H2%list_elem_of_singleton.
    apply (append_inv_head "$.credentialSubject."). congruence.
Qed.

(** X3. When every field of the first input descriptor has exactly one
    path, counting and checking agree: the offering matches exactly when
    each field on its own counts for one, that is, when each constraint is
    met. *)
Theorem isMatchingOffering_single_paths offering (credentials : list string)
    vc (descriptor : InputDescriptor) :
  Jwt_parse_vc (head credentials) = Ok (Some vc) →
  head (claims_input_descriptors (data_requiredClaims (offering_data offering)))
    = Some descriptor →
  Forall (λ c, length (field_path c) = 1)
    (constraints_fields (descriptor_constraints descriptor)) →
  isMatchingOffering Jwt_parse_vc offering credentials = Ok true
  ↔ Forall (λ c, spec_constraint_count vc c = 1)
      (constraints_fields (descriptor_constraints descriptor)).
Proof.
  intros Hvc Hd Hsingle.
  rewrite (isMatchingOffering_decoded _ _ _ _ _ Hvc Hd).
  assert (Forall (λ c, spec_constraint_count vc c ≤ 1)
            (constraints_fields (descriptor_constraints descriptor))) as Hle.
  { eapply Forall_impl; [exact Hsingle|]. intros c. apply spec_constraint_count_single. }
  destruct (sum_of_at_most_ones _ _ Hle) as [_ <-].
  unfold spec_match_count. split.
  - intros [= Heq]. by apply Nat.eqb_eq.
  - intros ->. by rewrite Nat.eqb_refl.
Qed.

End Matcher_more.

(** ** More on the status *)

Section Status_more.
Context {num : Type} `{!JsNumber num}.
Implicit Types (m : Message num).

(** X4. The keywords are found whatever their case: a close message whose
    reason holds "complete" or "success" in any mix of upper and lower
    case has the status completed and the label Completed. *)
Theorem close_reason_any_case m (reason word : string) :
  message_body m = CloseData reason →
  Contains reason word →
  toLowerCase word = "complete" ∨ toLowerCase word = "success" →
  generateExchangeStatusValues m = "completed"
  ∧ renderOrderStatus m = "Completed".
Proof.
  intros Hbody Hword%Contains_any_case Hkey.
  assert (generateExchangeStatusValues m = "completed") as Hstatus.
  { unfold generateExchangeStatusValues. rewrite Hbody.
    destruct Hkey as [Hkey|Hkey]; rewrite Hkey in Hword;
      apply includes_Contains in Hword; rewrite Hword;
      [done | by rewrite orb_true_r]. }
  split; [done|]. unfold renderOrderStatus. by rewrite Hstatus.
Qed.

(** X5. A close message is always labelled Completed, Expired, Cancelled or
    Failed.  The label "Unknown status" is given exactly to the messages
    that are no instance of Close and whose kind tag is none of the eight
    status names. *)
Theorem renderOrderStatus_unknown m :
  (∀ reason, message_body m = CloseData reason →
     renderOrderStatus m ∈ ["Completed"; "Expired"; "Cancelled"; "Failed"])
  ∧ (renderOrderStatus m = "Unknown status"
     ↔ ∃ kind payload,
         message_body m = KindData kind payload
         ∧ kind ∉ ["rfq"; "quote"; "order"; "orderstatus";
                   "completed"; "expired"; "cancelled"; "failed"]).
Proof.
  assert (∀ reason, message_body m = CloseData reason →
            renderOrderStatus m ∈ ["Completed"; "Expired"; "Cancelled"; "Failed"])
    as Hclose.
  { intros reason Hbody.
    unfold renderOrderStatus, generateExchangeStatusValues. rewrite Hbody.
    destruct (includes (toLowerCase reason) "complete"
              || includes (toLowerCase reason) "success");
      [cbn; repeat constructor|].
    destruct (includes (toLowerCase reason) "expired");
      [cbn; repeat constructor|].
    destruct (includes (toLowerCase reason) "cancelled");
      cbn; repeat constructor. }
  split; [done|].
  destruct (message_body m) as [reason|kind payload] eqn:Hbody.
  - split.
    + intros Hlabel. specialize (Hclose reason eq_refl).
      rewrite Hlabel in Hclose.
      repeat (apply elem_of_cons in Hclose as [[=]|Hclose]).
      by apply elem_of_nil in Hclose.
    + by intros (? & ? & ? & _).
  - unfold renderOrderStatus, generateExchangeStatusValues. rewrite Hbody.
    split.
    + intros Hlabel. exists kind, payload. split; [done|]. intros Hin.
      repeat (apply elem_of_cons in Hin as [->|Hin]; [done|]).
      by apply elem_of_nil in Hin.
    + intros (? & ? & [= <- <-] & Hother).
      repeat match goal with
      | |- context [String.eqb kind ?lit] =>
          destruct (String.eqb_spec kind lit) as [Heq|_];
          [exfalso; apply Hother; rewrite Heq; repeat constructor|]
      end.
      done.
Qed.

End Status_more.

(** ** More on the projection *)

Lemma Array_map_Ok {A B : Type} (f : A → result B) (xs : list A) (ys : list B) :
  Array_map f xs = Ok ys ↔ Forall2 (λ x y, f x = Ok y) xs ys.
Proof.
  revert ys. induction xs as [|x xs IH]; intros ys.
  - split; [intros [= <-]; constructor | by inversion 1].
  - cbn [Array_map]. destruct (f x) as [y|e] eqn:Hx; cbn [mbind result_bind].
    + destruct (Array_map f xs) as [ys'|e] eqn:Hxs; cbn [mbind result_bind].
      * split.
        -- intros [= <-]. constructor; [done|]. by apply IH.
        -- inversion 1 as [|? y' ? ys'' Hy Hys]; subst.
           apply IH in Hys. congruence.
      * split; [done|]. inversion 1 as [|? y' ? ys'' Hy Hys]; subst.
        apply IH in Hys. done.
    + split; [done|]. inversion 1; congruence.
Qed.

Section Projection_more.
Context {num : Type} `{!JsNumber num}.
Implicit Types (exchange : list (Message num)) (summary : ClientExchange num).
Implicit Types (m rfq quote : Message num).

Lemma find_kind_app (kind : string) exchange (later : list (Message num)) m :
  find_kind kind exchange = Some m → find_kind kind (exchange ++ later) = Some m.
Proof.
  unfold find_kind. induction exchange as [|m' exchange IH]; [done|].
  cbn [find app]. by destruct (String.eqb (message_kind m') kind).
Qed.

Lemma private_payout_details_Throw rfq (e : Exn) :
  private_payout_details rfq = Throw e
  ↔ e = TypeError
    ∧ ∃ privateData, message_privateData rfq = Some privateData
        ∧ nullish (get privateData "payout") = true.
Proof.
  unfold private_payout_details, prop.
  destruct (message_privateData rfq) as [privateData|].
  - destruct (get privateData "payout") eqn:Hp; cbn [nullish].
    1,2: split; [intros [= <-]; split; [done|]; exists privateData; by rewrite Hp
                |by intros [-> _]].
    all: split; [done|]; intros (_ & ? & [= <-] & Hn); by rewrite Hp in Hn.
  - split; [done|]. by intros (_ & ? & ? & _).
Qed.

(** On the messages of the data model the projection of an exchange fails,
    always with a TypeError, in four cases: the exchange is empty, it has
    no rfq, it has no quote, or the private data of its rfq has no payout. *)
Lemma mappedExchange_throws exchange (e : Exn) :
  mappedExchange exchange = Throw e
  ↔ e = TypeError
    ∧ (exchange = []
       ∨ find_kind "rfq" exchange = None
       ∨ find_kind "quote" exchange = None
       ∨ ∃ rfq privateData,
           find_kind "rfq" exchange = Some rfq
           ∧ message_privateData rfq = Some privateData
           ∧ nullish (get privateData "payout") = true).
Proof.
  rewrite mappedExchange_reads.
  destruct (last exchange) as [latest|] eqn:Hlast.
  2:{ apply last_None in Hlast as ->.
      split; [intros [= <-]; split; [done | by left] | by intros [-> _]]. }
  assert (exchange ≠ []) as Hne by (by intros ->).
  cbn [defined mbind result_bind].
  destruct (find_kind "rfq" exchange) as [rfq|] eqn:Hrfq.
  2:{ split; [intros [= <-]; split; [done | by right; left] | by intros [-> _]]. }
  cbn [defined mbind result_bind].
  destruct (private_payout_details rfq) as [details|e'] eqn:Hd.
  - cbn [mbind result_bind].
    destruct (find_kind "quote" exchange) as [quote|] eqn:Hquote.
    + split; [done|].
      intros (_ & [?|[?|[?|(rfq' & pd & [= <-] & Hpd & Hn)]]]); [done..|].
      assert (private_payout_details rfq = Throw TypeError) as Hthrow
        by (apply private_payout_details_Throw; eauto).
      congruence.
    + split; [intros [= <-]; split; [done | by right; right; left]
             | by intros [-> _]].
  - cbn [mbind result_bind]. apply private_payout_details_Throw in Hd as [-> Hd].
    split; [|by intros [-> _]].
    intros [= <-]. split; [done|]. right; right; right.
    destruct Hd as (pd & ? & ?). by exists rfq, pd.
Qed.

(** X6. The projection of an exchange throws a TypeError whenever the
    exchange is empty, has no rfq, has no quote, or has an rfq whose
    private data has no payout. *)
Theorem mappedExchange_throws_when exchange :
  exchange = []
  ∨ find_kind "rfq" exchange = None
  ∨ find_kind "quote" exchange = None
  ∨ (∃ rfq privateData,
       find_kind "rfq" exchange = Some rfq
       ∧ message_privateData rfq = Some privateData
       ∧ nullish (get privateData "payout") = true) →
  mappedExchange exchange = Throw TypeError.
Proof. intros Hbad. by apply mappedExchange_throws. Qed.

(** X7. A message added at the end of an exchange that projects, whatever
    its kind, changes three keys of the record and no other: the id and
    the status are read from the new message, and the expiry is set, to
    that of the first quote, only when the new message is a quote.  The
    amounts, the currencies, the creation time, the sender, the receiver
    and the institution stay as they were. *)
Theorem mappedExchange_append exchange summary m :
  mappedExchange exchange = Ok summary →
  ∃ quote,
    find_kind "quote" exchange = Some quote
    ∧ mappedExchange (exchange ++ [m])
      = Ok {| ce_id := metadata_exchangeId (message_metadata m);
              ce_payinAmount := ce_payinAmount summary;
              ce_payinCurrency := ce_payinCurrency summary;
              ce_payoutAmount := ce_payoutAmount summary;
              ce_payoutCurrency := ce_payoutCurrency summary;
              ce_status := generateExchangeStatusValues m;
              ce_createdTime := ce_createdTime summary;
              ce_expirationTime :=
                if String.eqb (message_kind m) "quote"
                then Some (js_nullish (message_data quote "expiresAt") JNull)
                else None;
              ce_from := ce_from summary;
              ce_to := ce_to summary;
              ce_pfiDid := ce_pfiDid summary |}.
Proof.
  intros (latest & rfq & quote & details & _ & Hrfq & Hquote & Hd & ->)
    %mappedExchange_Ok_inv.
  exists quote. split; [done|].
  rewrite mappedExchange_reads, last_snoc.
  rewrite (find_kind_app _ _ [m] _ Hrfq), (find_kind_app _ _ [m] _ Hquote).
  cbn [defined mbind result_bind]. by rewrite Hd.
Qed.

Lemma mappedExchange_Throw_projectable exchange (e : Exn) :
  mappedExchange exchange = Throw e → e = TypeError ∧ projectable exchange = false.
Proof.
  intros He. split; [by apply mappedExchange_throws in He as [-> _]|].
  destruct (projectable exchange) eqn:Hp; [|done].
  apply projectable_iff in Hp as [summary Hs]. congruence.
Qed.

Lemma Array_map_mappedExchange_bad (exchanges : list (list (Message num))) :
  Exists (λ exchange, projectable exchange = false) exchanges →
  Array_map mappedExchange exchanges = Throw TypeError.
Proof.
  induction exchanges as [|exchange exchanges IH]; [by inversion 1|].
  intros Hbad. cbn [Array_map].
  destruct (mappedExchange exchange) as [summary|e] eqn:Hx.
  - cbn [mbind result_bind]. rewrite IH; [done|].
    apply Exists_cons in Hbad as [Hbad|Hbad]; [|done].
    assert (projectable exchange = true) by (apply projectable_iff; eauto).
    congruence.
  - by apply mappedExchange_Throw_projectable in Hx as [-> _].
Qed.

Lemma Array_map_mappedExchange_good (exchanges : list (list (Message num))) :
  Forall (λ exchange, projectable exchange = true) exchanges →
  ∃ summaries, Array_map mappedExchange exchanges = Ok summaries.
Proof.
  induction 1 as [|exchange exchanges Hx _ [summaries IH]]; [by eexists|].
  apply projectable_iff in Hx as [summary Hx].
  exists (summary :: summaries). cbn [Array_map]. by rewrite Hx, IH.
Qed.

(** X10. One bad exchange fails the whole batch: when some fetched
    exchange is empty, lacks its rfq or its quote, or has private data
    without a payout, [fetchExchanges] returns no record at all and throws
    the wrapped TypeError. *)
Theorem fetchExchanges_one_bad (exchanges : list (list (Message num))) exchange :
  exchange ∈ exchanges →
  exchange = []
  ∨ find_kind "rfq" exchange = None
  ∨ find_kind "quote" exchange = None
  ∨ (∃ rfq privateData,
       find_kind "rfq" exchange = Some rfq
       ∧ message_privateData rfq = Some privateData
       ∧ nullish (get privateData "payout") = true) →
  fetchExchanges (Ok exchanges)
  = Throw (ErrorMsg "Error fetching exchanges: " TypeError).
Proof.
  intros Hin Hbad.
  assert (mappedExchange exchange = Throw TypeError) as Hthrow
    by (by apply mappedExchange_throws).
  apply mappedExchange_Throw_projectable in Hthrow as [_ Hp].
  unfold fetchExchanges. cbn [mbind result_bind].
  rewrite Array_map_mappedExchange_bad; [done|].
  apply Exists_exists. by exists exchange.
Qed.

(** X11. When every fetched exchange projects, [fetchExchanges] returns one
    record per exchange, in the order of the exchanges, each the
    projection of its exchange. *)
Theorem fetchExchanges_all_good (exchanges : list (list (Message num))) :
  Forall (λ exchange, projectable exchange = true) exchanges →
  ∃ summaries,
    fetchExchanges (Ok exchanges) = Ok summaries
    ∧ length summaries = length exchanges
    ∧ Forall2 (λ exchange summary, mappedExchange exchange = Ok summary)
        exchanges summaries.
Proof.
  intros [summaries Hs]%Array_map_mappedExchange_good.
  exists summaries. unfold fetchExchanges. cbn [mbind result_bind].
  rewrite Hs. split; [done|].
  apply Array_map_Ok in Hs. split; [|done].
  symmetry. by eapply Forall2_length.
Qed.

(** X12. [fetchExchanges] never lets an exception through as it is: what it
    throws is the fixed prefix put on the exception of the client, or on
    the TypeError of a projection. *)
Theorem fetchExchanges_wraps (getExchanges : result (list (list (Message num))))
    (e : Exn) :
  fetchExchanges getExchanges = Throw e →
  ∃ cause,
    e = ErrorMsg "Error fetching exchanges: " cause
    ∧ (getExchanges = Throw cause
       ∨ cause = TypeError
         ∧ ∃ exchanges exchange,
             getExchanges = Ok exchanges
             ∧ exchange ∈ exchanges
             ∧ projectable exchange = false).
Proof.
  unfold fetchExchanges. destruct getExchanges as [exchanges|cause].
  - cbn [mbind result_bind].
    destruct (Array_map mappedExchange exchanges) as [summaries|cause] eqn:Hmap;
      [done|].
    intros [= <-]. exists cause. split; [done|]. right.
    destruct (decide (Exists (λ exchange, projectable exchange = false) exchanges))
      as [Hbad|Hgood].
    + rewrite (Array_map_mappedExchange_bad _ Hbad) in Hmap.
      injection Hmap as <-. split; [done|].
      apply Exists_exists in Hbad as (exchange & ? & ?).
      by exists exchanges, exchange.
    + apply not_Exists_Forall in Hgood; [|intros ?; apply _].
      destruct (Array_map_mappedExchange_good exchanges) as [summaries Hs];
        [|congruence].
      eapply Forall_impl; [exact Hgood|]. intros exchange Hp. cbn in Hp.
      by destruct (projectable exchange).
  - intros [= <-]. exists cause. split; [done | by left].
Qed.

End Projection_more.

(** ** More fixtures, evaluated *)

(** The titles of some type tags: an acronym is kept whole. *)
Example titles :
  replace_capitals None "KnownCustomerCredential" = "Known Customer Credential"
  ∧ replace_capitals None "VerifiableCredential" = "Verifiable Credential"
  ∧ replace_capitals None "KYCCredential" = "KYCCredential"
  ∧ replace_capitals None "Known Customer Credential"
    = "Known  Customer  Credential".
Proof. repeat split; reflexivity. Qed.

(** A name with an ampersand in it asks for the address of another name
    and country. *)
Example credential_url_collision :
  credential_url "did:x"
    [("customerName", JStr "Al&country=US" : val); ("country", JStr "KE" : val)]
  = credential_url "did:x"
      [("customerName", JStr "Al" : val); ("country", JStr "US&country=KE" : val)].
Proof. reflexivity. Qed.

(** X2 on the two orders of a type and an issuer constraint. *)
Lemma isMatchingOffering_field_order_witness :
  isMatchingOffering parse (offering [f_type; f_issuer]) ["kcc.jwt"]
  = isMatchingOffering parse (offering [f_issuer; f_type]) ["kcc.jwt"].
Proof.
  apply (isMatchingOffering_field_order parse
           (offering [f_type; f_issuer]) (offering [f_issuer; f_type])
           ["kcc.jwt"]
           {| descriptor_constraints :=
                {| constraints_fields := [f_type; f_issuer] |} |}
           {| descriptor_constraints :=
                {| constraints_fields := [f_issuer; f_type] |} |});
    [reflexivity | reflexivity | apply perm_swap].
Defined.

(** X3 on the offering with a type and an issuer constraint. *)
Lemma isMatchingOffering_single_paths_witness :
  isMatchingOffering parse offering_kcc ["kcc.jwt"] = Ok true
  ↔ Forall (λ c, spec_constraint_count vc_kcc c = 1) [f_type; f_issuer].
Proof.
  apply (isMatchingOffering_single_paths parse offering_kcc ["kcc.jwt"] vc_kcc
           {| descriptor_constraints :=
                {| constraints_fields := [f_type; f_issuer] |} |});
    [reflexivity | reflexivity | repeat constructor].
Defined.

(** X4 on a reason in capitals. *)
Lemma close_reason_any_case_witness :
  generateExchangeStatusValues (close "Transaction COMPLETE") = "completed"
  ∧ renderOrderStatus (close "Transaction COMPLETE") = "Completed".
Proof.
  apply (close_reason_any_case (close "Transaction COMPLETE")
           "Transaction COMPLETE" "COMPLETE");
    [reflexivity | by exists "Transaction ", "" | by left].
Defined.

(** X7 on an order that follows the quote. *)
Lemma mappedExchange_append_witness :
  ∃ quote',
    find_kind "quote" [rfq; quote] = Some quote'
    ∧ mappedExchange ([rfq; quote] ++ [order])
      = Ok {| ce_id := metadata_exchangeId (message_metadata order);
              ce_payinAmount := ce_payinAmount summary_quote;
              ce_payinCurrency := ce_payinCurrency summary_quote;
              ce_payoutAmount := ce_payoutAmount summary_quote;
              ce_payoutCurrency := ce_payoutCurrency summary_quote;
              ce_status := generateExchangeStatusValues order;
              ce_createdTime := ce_createdTime summary_quote;
              ce_expirationTime :=
                if String.eqb (message_kind order) "quote"
                then Some (js_nullish (message_data quote' "expiresAt") JNull)
                else None;
              ce_from := ce_from summary_quote;
              ce_to := ce_to summary_quote;
              ce_pfiDid := ce_pfiDid summary_quote |}.
Proof.
  apply (mappedExchange_append [rfq; quote] summary_quote order).
  vm_compute. reflexivity.
Defined.

(** X8 on the quote with a fee of 5 on an amount of 100. *)
Lemma payinAmount_of_quote_witness :
  ∃ quote',
    find_kind "quote" [rfq; quote] = Some quote'
    ∧ (truthy (optprop (message_data quote' "payin") "fee") = true →
       ce_payinAmount summary_quote
       = JStr (num_to_string
                 (num_add (Number (optprop (message_data quote' "payin") "amount"))
                          (Number (optprop (message_data quote' "payin") "fee")))))
    ∧ (truthy (optprop (message_data quote' "payin") "fee") = false →
       ce_payinAmount summary_quote
       = JStr (num_to_string
                 (Number (optprop (message_data quote' "payin") "amount")))).
Proof.
  apply (payinAmount_of_quote [rfq; quote] summary_quote).
  vm_compute. reflexivity.
Defined.

(** X11 on a batch of two exchanges. *)
Lemma fetchExchanges_all_good_witness :
  ∃ summaries,
    fetchExchanges (Ok [[rfq; quote]; [rfq_bank; quote_no_fee; order]])
      = Ok summaries
    ∧ length summaries = 2
    ∧ Forall2 (λ exchange summary, mappedExchange exchange = Ok summary)
        [[rfq; quote]; [rfq_bank; quote_no_fee; order]] summaries.
Proof.
  apply (fetchExchanges_all_good
           [[rfq; quote]; [rfq_bank; quote_no_fee; order]]).
  repeat constructor.
Defined.

(** X12 on a batch whose second exchange has private data without payout. *)
Lemma fetchExchanges_wraps_witness :
  ∃ cause,
    ErrorMsg "Error fetching exchanges: " TypeError
    = ErrorMsg "Error fetching exchanges: " cause
    ∧ ((Ok [[rfq; quote]; [rfq_no_payout; quote]]
        : result (list (list (Message (option Z))))) = Throw cause
       ∨ cause = TypeError
         ∧ ∃ exchanges exchange,
             Ok [[rfq; quote]; [rfq_no_payout; quote]] = Ok exchanges
             ∧ exchange ∈ exchanges
             ∧ projectable exchange = false).
Proof.
  apply (fetchExchanges_wraps (Ok [[rfq; quote]; [rfq_no_payout; quote]])).
  vm_compute. reflexivity.
Defined.

(** X14 on the credential with two type tags. *)
Lemma renderCredential_title_witness :
  ∃ vc types tag,
    parse (Some "kcc.jwt") = Ok (Some vc)
    ∧ vc_type vc = Some types
    ∧ last types = Some tag
    ∧ remove_spaces "Known Customer Credential" = remove_spaces tag
    ∧ String.length tag ≤ String.length "Known Customer Credential".
Proof.
  apply (renderCredential_title parse (λ _, JStr "2024-01-01")
           (λ _, "Jan 1, 2024") "kcc.jwt"
           {| rendered_title := "Known Customer Credential";
              rendered_name := JStr "Alice";
              rendered_countryCode := JStr "KE";
              rendered_issuanceDate := "Jan 1, 2024" |}).
  vm_compute. reflexivity.
Defined.

(** X16 on the same request written with its members in two orders. *)
Lemma credential_url_injective_witness :
  ToString (JStr "Al" : val) = ToString (JStr "Al" : val)
  ∧ ToString (JStr "KE" : val) = ToString (JStr "KE" : val)
  ∧ "did:x" = "did:x".
Proof.
  apply (credential_url_injective "did:x" "did:x"
           [("customerName", JStr "Al" : val); ("country", JStr "KE" : val)]
           [("country", JStr "KE" : val); ("customerName", JStr "Al" : val)]);
    reflexivity.
Defined.

(** ** The status functions on any argument: facts *)

Section Untyped_facts.
Context {num : Type} `{!JsNumber num}.
Implicit Types (arg : Argument num) (m : Message num).

(** On a message of the data model the untyped functions never throw and
    give what the typed ones give. *)
Lemma untyped_on_messages m :
  generateExchangeStatusValues_untyped (argument_of m)
  = Ok (JStr (generateExchangeStatusValues m))
  ∧ renderOrderStatus_untyped (argument_of m) = Ok (renderOrderStatus m).
Proof.
  unfold renderOrderStatus_untyped, generateExchangeStatusValues_untyped,
    renderOrderStatus, generateExchangeStatusValues, argument_of, message_kind.
  destruct (message_body m) as [reason|kind payload]; by cbn.
Qed.

(** Deriving the status throws, a TypeError, exactly on undefined and null
    and on an instance of Close whose [data.reason] is not a string. *)
Lemma generateExchangeStatusValues_untyped_throws arg (e : Exn) :
  generateExchangeStatusValues_untyped arg = Throw e
  ↔ e = TypeError
    ∧ (nullish (arg_value arg) = true
       ∨ (arg_instanceofClose arg = true
          ∧ ¬ ∃ reason,
                optprop (optprop (arg_value arg) "data") "reason" = JStr reason)).
Proof.
  unfold generateExchangeStatusValues_untyped.
  destruct arg as [[|] value]; cbn [arg_instanceofClose arg_value].
  - destruct value as [| | | | |props]; cbn [prop mbind result_bind nullish optprop].
    1,2: split; [intros [= <-]; split; [done | by left] | by intros [-> _]].
    1-3: split; [intros [= <-]; split; [done|]; right; split; [done|];
                 by intros [? ?]
                |by intros [-> _]].
    destruct (get props "data") as [| | | | |dprops];
      cbn [prop mbind result_bind optprop].
    1-5: split; [intros [= <-]; split; [done|]; right; split; [done|];
                 by intros [? ?]
                |by intros [-> _]].
    destruct (get dprops "reason") as [| | | |reason|];
      cbn [toLowerCase_call mbind result_bind].
    1-4,6: split; [intros [= <-]; split; [done|]; right; split; [done|];
                   by intros [? ?]
                  |by intros [-> _]].
    split; [done|]. intros (_ & [?|[_ Hno]]); [done|].
    destruct Hno. by exists reason.
  - destruct value; cbn [prop nullish].
    1,2: split; [intros [= <-]; split; [done | by left] | by intros [-> _]].
    all: split; [done|]; by intros (_ & [?|[? _]]).
Qed.

(** C5. [renderOrderStatus] takes a message and labels the status that
    [generateExchangeStatusValues] derives from it.  Whenever a status is
    derived a label is returned: rfq, quote, order, orderstatus, completed,
    expired, cancelled and failed give Requested, Quoted, Pending, Pending,
    Completed, Expired, Cancelled and Failed, and every other status gives
    "Unknown status".  It throws exactly when the derivation throws, which
    is a TypeError on undefined, on null and on an instance of Close whose
    reason is not a string; on the messages of the data model it never
    throws. *)
Theorem renderOrderStatus_untyped_labels :
  (∀ arg status,
     generateExchangeStatusValues_untyped arg = Ok status →
     ∃ label,
       renderOrderStatus_untyped arg = Ok label
       ∧ (status = JStr "rfq" → label = "Requested")
       ∧ (status = JStr "quote" → label = "Quoted")
       ∧ (status = JStr "order" → label = "Pending")
       ∧ (status = JStr "orderstatus" → label = "Pending")
       ∧ (status = JStr "completed" → label = "Completed")
       ∧ (status = JStr "expired" → label = "Expired")
       ∧ (status = JStr "cancelled" → label = "Cancelled")
       ∧ (status = JStr "failed" → label = "Failed")
       ∧ (status ∉ [JStr "rfq"; JStr "quote"; JStr "order"; JStr "orderstatus";
                    JStr "completed"; JStr "expired"; JStr "cancelled";
                    JStr "failed"] →
          label = "Unknown status"))
  ∧ (∀ arg e,
       renderOrderStatus_untyped arg = Throw e
       ↔ e = TypeError
         ∧ (nullish (arg_value arg) = true
            ∨ (arg_instanceofClose arg = true
               ∧ ¬ ∃ reason,
                     optprop (optprop (arg_value arg) "data") "reason"
                     = JStr reason)))
  ∧ (∀ m, renderOrderStatus_untyped (argument_of m) = Ok (renderOrderStatus m)).
Proof.
  split; [|split].
  - intros arg status Hstatus. exists (status_label status).
    unfold renderOrderStatus_untyped. rewrite Hstatus.
    split; [done|]. repeat split; try (by intros ->).
    intros Hother. destruct status as [| | | |status|]; try done.
    cbn [status_label].
    repeat match goal with
    | |- context [String.eqb status ?lit] =>
        destruct (String.eqb_spec status lit) as [Heq|_];
        [exfalso; apply Hother; rewrite Heq; repeat constructor|]
    end.
    done.
  - intros arg e. rewrite <- generateExchangeStatusValues_untyped_throws.
    unfold renderOrderStatus_untyped.
    destruct (generateExchangeStatusValues_untyped arg);
      cbn [mbind result_bind]; split; intros [=]; by subst.
  - intros m. apply untyped_on_messages.
Qed.

End Untyped_facts.

(** ** Further fixtures, evaluated *)

(** C5, three arguments: an instance of Close without reason and the value
    undefined make [renderOrderStatus] throw, and the status name rfq,
    passed as the argument, is labelled "Unknown status", not "Requested". *)
Lemma renderOrderStatus_untyped_fails :
  renderOrderStatus_untyped
    {| arg_instanceofClose := true;
       arg_value := JObj [("kind", JStr "close"); ("data", JObj [])] : val |}
  = Throw TypeError
  ∧ renderOrderStatus_untyped
      {| arg_instanceofClose := false; arg_value := JUndefined : val |}
    = Throw TypeError
  ∧ renderOrderStatus_untyped
      {| arg_instanceofClose := false; arg_value := JStr "rfq" : val |}
    = Ok "Unknown status".
Proof. repeat split; reflexivity. Qed.

(** C9. The exchange that holds only an rfq is not empty and has its rfq,
    yet projecting it twice gives no record either time: the callback
    throws a TypeError on it, and so does the mapping over the two. *)
Theorem projecting_rfq_twice :
  last [rfq] = Some rfq
  ∧ find_kind "rfq" [rfq] = Some rfq
  ∧ mappedExchange [rfq] = Throw TypeError
  ∧ Array_map mappedExchange [[rfq]; [rfq]] = Throw TypeError
  ∧ fetchExchanges (Ok [[rfq]; [rfq]])
    = Throw (ErrorMsg "Error fetching exchanges: " TypeError).
Proof. repeat split; vm_compute; reflexivity. Qed.

(** X6 on an rfq whose private data has no payout. *)
Lemma mappedExchange_throws_when_witness :
  mappedExchange [rfq_no_payout; quote] = Throw TypeError.
Proof.
  apply (mappedExchange_throws_when [rfq_no_payout; quote]).
  right; right; right. exists rfq_no_payout, []. repeat split.
Defined.

(** X10 on a batch whose second exchange has no quote. *)
Lemma fetchExchanges_one_bad_witness :
  fetchExchanges (Ok [[rfq; quote]; [rfq]])
  = Throw (ErrorMsg "Error fetching exchanges: " TypeError).
Proof.
  apply (fetchExchanges_one_bad [[rfq; quote]; [rfq]] [rfq]).
  - apply list_elem_of_further, list_elem_of_here.
  - right; right; left. reflexivity.
Defined.
